(** * ImviPD: the pupillary-distance measurement core

    A shallow embedding of the calibration-and-measurement engine
    ([utils/geometry.ts], [utils/measurement.ts], [constants.ts]), of the
    marker hit-testing and coordinate mapping of [AnnotationCanvas.tsx], and
    of the auto-suggest merge and the saving of a reading in [App.tsx].

    JavaScript numbers are modelled as the real numbers extended with
    [Infinity], [-Infinity] and [NaN].  Arithmetic on finite values is exact
    real arithmetic: rounding to binary64, overflow, underflow and the sign
    of zero are not modelled.  The special values follow ECMAScript, so that
    a division by zero does produce a non-finite value and the guards of the
    source against it are exercised by the proofs.

    The properties of the degenerate card and of the confidence bounds
    depend on rounding and overflow.  For them [calculatePd] is embedded a
    second time, over an arbitrary arithmetic, and run on binary64 numbers
    and on the reals with a rounding ([Generic], [Binary64], [Rounded]). *)

From Stdlib Require Import Reals Lra Lia ZArith List String Bool.
From Stdlib Require QArith Qreals PrimFloat.
Import ListNotations.

Local Open Scope R_scope.

(** ** JavaScript numbers *)

Inductive number : Type :=
| Finite (r : R)
| PosInfinity
| NegInfinity
| NaN.

Coercion Finite : R >-> number.

Declare Scope js_scope.
Delimit Scope js_scope with js.
Bind Scope js_scope with number.

Module Number.

Definition POSITIVE_INFINITY : number := PosInfinity.

(** [Number.isFinite] *)
Definition isFinite (a : number) : bool :=
  match a with
  | Finite _ => true
  | _ => false
  end.

Definition Rltb (a b : R) : bool := if Rlt_dec a b then true else false.
Definition Rleb (a b : R) : bool := if Rle_dec a b then true else false.

Definition neg (a : number) : number :=
  match a with
  | Finite r => Finite (- r)
  | PosInfinity => NegInfinity
  | NegInfinity => PosInfinity
  | NaN => NaN
  end.

Definition add (a b : number) : number :=
  match a, b with
  | NaN, _ | _, NaN => NaN
  | Finite r, Finite s => Finite (r + s)
  | PosInfinity, NegInfinity | NegInfinity, PosInfinity => NaN
  | PosInfinity, _ | _, PosInfinity => PosInfinity
  | NegInfinity, _ | _, NegInfinity => NegInfinity
  end.

Definition sub (a b : number) : number := add a (neg b).

(** An infinity multiplied by a finite factor: the factor's sign decides,
    and a zero factor gives [NaN]. *)
Definition scaleInfinity (positive : bool) (r : R) : number :=
  if Rltb 0 r then (if positive then PosInfinity else NegInfinity)
  else if Rltb r 0 then (if positive then NegInfinity else PosInfinity)
  else NaN.

Definition mul (a b : number) : number :=
  match a, b with
  | NaN, _ | _, NaN => NaN
  | Finite r, Finite s => Finite (r * s)
  | PosInfinity, Finite s | Finite s, PosInfinity => scaleInfinity true s
  | NegInfinity, Finite s | Finite s, NegInfinity => scaleInfinity false s
  | PosInfinity, PosInfinity | NegInfinity, NegInfinity => PosInfinity
  | PosInfinity, NegInfinity | NegInfinity, PosInfinity => NegInfinity
  end.

(** Division.  A finite value divided by zero is [NaN] for [0 / 0] and an
    infinity of the dividend's sign otherwise (the zero divisor is taken
    as [+0]). *)
Definition div (a b : number) : number :=
  match a, b with
  | NaN, _ | _, NaN => NaN
  | Finite r, Finite s =>
      if Req_dec_T s 0 then
        (if Rltb 0 r then PosInfinity
         else if Rltb r 0 then NegInfinity
         else NaN)
      else Finite (r / s)
  | Finite _, PosInfinity | Finite _, NegInfinity => Finite 0
  | PosInfinity, Finite s => if Rltb s 0 then NegInfinity else PosInfinity
  | NegInfinity, Finite s => if Rltb s 0 then PosInfinity else NegInfinity
  | _, _ => NaN
  end.

(** [a < b]; false as soon as one side is [NaN]. *)
Definition lt (a b : number) : bool :=
  match a, b with
  | NaN, _ | _, NaN => false
  | Finite r, Finite s => Rltb r s
  | _, NegInfinity => false
  | NegInfinity, _ => true
  | PosInfinity, _ => false
  | _, PosInfinity => true
  end.

(** [a <= b]; false as soon as one side is [NaN]. *)
Definition le (a b : number) : bool :=
  match a, b with
  | NaN, _ | _, NaN => false
  | Finite r, Finite s => Rleb r s
  | NegInfinity, _ => true
  | _, PosInfinity => true
  | _, NegInfinity => false
  | PosInfinity, _ => false
  end.

Definition gt (a b : number) : bool := lt b a.
Definition ge (a b : number) : bool := le b a.

End Number.

Infix "+" := Number.add : js_scope.
Infix "-" := Number.sub : js_scope.
Infix "*" := Number.mul : js_scope.
Infix "/" := Number.div : js_scope.
Infix "<?" := Number.lt (at level 70, no associativity) : js_scope.
Infix ">?" := Number.gt (at level 70, no associativity) : js_scope.
Infix ">=?" := Number.ge (at level 70, no associativity) : js_scope.
Infix "<=?" := Number.le (at level 70, no associativity) : js_scope.

(** ** The [Math] object *)

Module Math.

Definition abs (a : number) : number :=
  match a with
  | Finite r => Finite (Rabs r)
  | PosInfinity | NegInfinity => PosInfinity
  | NaN => NaN
  end.

Definition max (a b : number) : number :=
  match a, b with
  | NaN, _ | _, NaN => NaN
  | Finite r, Finite s => Finite (Rmax r s)
  | PosInfinity, _ | _, PosInfinity => PosInfinity
  | NegInfinity, c | c, NegInfinity => c
  end.

Definition min (a b : number) : number :=
  match a, b with
  | NaN, _ | _, NaN => NaN
  | Finite r, Finite s => Finite (Rmin r s)
  | NegInfinity, _ | _, NegInfinity => NegInfinity
  | PosInfinity, c | c, PosInfinity => c
  end.

(** [Math.hypot] of two arguments: an infinite argument wins over [NaN]. *)
Definition hypot (a b : number) : number :=
  match a, b with
  | PosInfinity, _ | NegInfinity, _ | _, PosInfinity | _, NegInfinity =>
      PosInfinity
  | NaN, _ | _, NaN => NaN
  | Finite r, Finite s => Finite (sqrt (r * r + s * s))
  end.

(** [Math.round]: the nearest integer, a tie going towards +Infinity,
    that is [floor (x + 1/2)]. *)
Definition round (a : number) : number :=
  match a with
  | Finite r => Finite (IZR (Zfloor (r + / 2)))
  | _ => a
  end.

End Math.

(** ** Data model ([types.ts]) *)

Inductive MarkerKey : Type := leftPupil | rightPupil | leftCard | rightCard.

Record Point : Type := mkPoint { x : number; y : number }.

(** [MarkerMap = Record<MarkerKey, Point>]: a total map over the four keys. *)
Definition MarkerMap : Type := MarkerKey -> Point.

(** The object literal [{ leftPupil, rightPupil, leftCard, rightCard }]. *)
Definition mkMarkerMap (lp rp lc rc : Point) : MarkerMap :=
  fun key =>
    match key with
    | leftPupil => lp
    | rightPupil => rp
    | leftCard => lc
    | rightCard => rc
    end.

Record CapturedPhoto : Type := mkPhoto {
  dataUrl : string;
  width : number;
  height : number;
  capturedAt : string
}.

(** The validation issues of [calculatePd].  The source pushes a message
    string for each; the second one embeds [pdMm.toFixed(1)], so the
    constructor carries the number that is formatted.
    - [CardTooClose]: "Card markers are too close. Move card corner points
      to real card edges."
    - [PdOutOfRange pdMm]: "Estimated PD <pdMm.toFixed(1)> mm is outside
      expected range (45-80 mm)."
    - [CardTilted]: "Card line appears heavily tilted. Keep card parallel
      to camera for better scale." *)
Inductive Issue : Type :=
| CardTooClose
| PdOutOfRange (pdMm : number)
| CardTilted.

Record MeasurementResult : Type := mkMeasurement {
  pupilPixelDistance : number;
  cardPixelWidth : number;
  mmPerPixel : number;
  pdMm : number;
  pdMmRounded : number;
  confidence : number;
  qualityMessage : string;
  issues : list Issue;
  valid : bool
}.

(** ** Constants ([constants.ts]) *)

Definition CARD_WIDTH_MM : number := 85.6.
Definition MIN_CARD_PIXEL_WIDTH : number := 90.
Definition MIN_PD_MM : number := 45.
Definition MAX_PD_MM : number := 80.

Definition createDefaultMarkers (width height : number) : MarkerMap :=
  mkMarkerMap
    {| x := width * 0.4; y := height * 0.48 |}%js
    {| x := width * 0.6; y := height * 0.48 |}%js
    {| x := width * 0.3; y := height * 0.2 |}%js
    {| x := width * 0.7; y := height * 0.2 |}%js.

(** ** Geometry primitives ([utils/geometry.ts]) *)

Definition distance (a b : Point) : number :=
  Math.hypot (x a - x b) (y a - y b).

Definition clamp (value min max : number) : number :=
  Math.min max (Math.max min value).

(** ** The measurement engine ([utils/measurement.ts]) *)

Definition LOW_QUALITY : string :=
  "Low confidence - check marker placement and retake.".
Definition GOOD_QUALITY : string :=
  "Good quality capture. Manual marker check still recommended.".
Definition MODERATE_QUALITY : string :=
  "Moderate quality. Consider another capture to confirm.".

(** [issues.push(issue)] *)
Definition push (issues : list Issue) (issue : Issue) : list Issue :=
  issues ++ [issue].

Definition calculatePd (markers : MarkerMap) : MeasurementResult :=
  let pupilPixelDistance := distance (markers leftPupil) (markers rightPupil) in
  let cardPixelWidth := distance (markers leftCard) (markers rightCard) in
  let mmPerPixel :=
    (if cardPixelWidth >? 0 then CARD_WIDTH_MM / cardPixelWidth else 0)%js in
  let pdMm := (pupilPixelDistance * mmPerPixel)%js in
  let pdMmRounded := (Math.round (pdMm * 2) / 2)%js in
  let issues : list Issue := [] in
  let issues :=
    if (cardPixelWidth <? MIN_CARD_PIXEL_WIDTH)%js
    then push issues CardTooClose else issues in
  let issues :=
    if ((pdMm <? MIN_PD_MM) || (pdMm >? MAX_PD_MM))%js
    then push issues (PdOutOfRange pdMm) else issues in
  let cardTiltRatio :=
    (Math.abs (y (markers leftCard) - y (markers rightCard))
     / Math.max cardPixelWidth 1)%js in
  let issues :=
    if (cardTiltRatio >? 0.2)%js then push issues CardTilted else issues in
  let scaleConfidence :=
    clamp ((cardPixelWidth - MIN_CARD_PIXEL_WIDTH) / 220)%js 0 1 in
  let tiltConfidence := (1 - clamp (cardTiltRatio / 0.2) 0 1)%js in
  let confidence :=
    (0.35 + scaleConfidence * 0.45 + tiltConfidence * 0.2)%js in
  let confidence :=
    if ((pdMm <? MIN_PD_MM) || (pdMm >? MAX_PD_MM))%js
    then (confidence - 0.3)%js else confidence in
  let confidence := clamp confidence 0 1 in
  let qualityMessage := LOW_QUALITY in
  let qualityMessage :=
    if (confidence >=? 0.75)%js && (List.length issues =? 0)%nat then GOOD_QUALITY
    else if (confidence >=? 0.5)%js then MODERATE_QUALITY
    else qualityMessage in
  {| pupilPixelDistance := pupilPixelDistance;
     cardPixelWidth := cardPixelWidth;
     mmPerPixel := mmPerPixel;
     pdMm := pdMm;
     pdMmRounded := pdMmRounded;
     confidence := confidence;
     qualityMessage := qualityMessage;
     issues := issues;
     valid := (List.length issues =? 0)%nat |}.

(** The value of [confidence] before the out-of-range penalty and the final
    clamp (the first assignment to [confidence] in [calculatePd]). *)
Definition confidenceBeforePenalty (markers : MarkerMap) : number :=
  let cardPixelWidth := distance (markers leftCard) (markers rightCard) in
  let cardTiltRatio :=
    (Math.abs (y (markers leftCard) - y (markers rightCard))
     / Math.max cardPixelWidth 1)%js in
  let scaleConfidence :=
    clamp ((cardPixelWidth - MIN_CARD_PIXEL_WIDTH) / 220)%js 0 1 in
  let tiltConfidence := (1 - clamp (cardTiltRatio / 0.2) 0 1)%js in
  (0.35 + scaleConfidence * 0.45 + tiltConfidence * 0.2)%js.

(** The condition under which [calculatePd] reports the PD as out of range
    and subtracts the penalty. *)
Definition pdOutOfRange (pdMm : number) : bool :=
  ((pdMm <? MIN_PD_MM) || (pdMm >? MAX_PD_MM))%js.

(** ** Hit-testing and coordinate mapping ([components/AnnotationCanvas.tsx]) *)

(** [Object.keys(markers)]: every marker map of the program is built by
    [createDefaultMarkers] and then copied by spreading or updated in
    place, so its keys are always enumerated in this order. *)
Definition Object_keys (candidates : MarkerMap) : list MarkerKey :=
  [leftPupil; rightPupil; leftCard; rightCard].

(** The position of a key in that enumeration. *)
Definition keyIndex (key : MarkerKey) : nat :=
  match key with
  | leftPupil => 0
  | rightPupil => 1
  | leftCard => 2
  | rightCard => 3
  end.

Definition nearestMarker (point : Point) (candidates : MarkerMap)
  : option MarkerKey :=
  let '(nearest, nearestDistance) :=
    fold_left
      (fun '(nearest, nearestDistance) key =>
         let currentDistance := distance point (candidates key) in
         if (currentDistance <? nearestDistance)%js
         then (Some key, currentDistance)
         else (nearest, nearestDistance))
      (Object_keys candidates)
      (None, Number.POSITIVE_INFINITY) in
  if (nearestDistance <? 26)%js then nearest else None.

(** [toCanvas] of the drawing effect; [scale] is the pair of per-axis
    factors [{ x: size.width / photo.width, y: size.height / photo.height }]. *)
Definition toCanvas (scale : Point) (point : Point) : Point :=
  {| x := x point * x scale; y := y point * y scale |}%js.

Record DOMRect : Type := mkRect { left : number; top : number }.

(** The part of a pointer event that the canvas reads; [currentTarget] stands
    for [event.currentTarget.getBoundingClientRect()]. *)
Record PointerEvent : Type := mkEvent {
  clientX : number;
  clientY : number;
  currentTarget : DOMRect
}.

Definition getImagePointFromEvent
  (scale : Point) (photo : CapturedPhoto) (event : PointerEvent) : Point :=
  let rect := currentTarget event in
  let pointerX := (clientX event - left rect)%js in
  let pointerY := (clientY event - top rect)%js in
  {| x := clamp (pointerX / Math.max (x scale) 0.0001)%js 0 (width photo);
     y := clamp (pointerY / Math.max (y scale) 0.0001)%js 0 (height photo) |}.

(** [handlePointerDown]: the new value of the [activeMarker] state. *)
Definition handlePointerDown
  (scale : Point) (photo : CapturedPhoto) (markers : MarkerMap)
  (activeMarker : option MarkerKey) (event : PointerEvent)
  : option MarkerKey :=
  let hitPoint := getImagePointFromEvent scale photo event in
  match nearestMarker hitPoint markers with
  | None => activeMarker
  | Some key => Some key
  end.

(** ** Auto-suggest reconciliation ([App.tsx], [utils/landmarks.ts]) *)

Definition MarkerKey_eqb (a b : MarkerKey) : bool :=
  match a, b with
  | leftPupil, leftPupil | rightPupil, rightPupil
  | leftCard, leftCard | rightCard, rightCard => true
  | _, _ => false
  end.

(** [Partial<MarkerMap>]: the own properties of the object in insertion
    order; a property whose value is [undefined] is bound to [None]. *)
Definition Suggestions : Type := list (MarkerKey * option Point).

Inductive AutoStatus : Type := success | no_face | error.

Record AutoSuggestResult : Type := mkAutoSuggestResult {
  status : AutoStatus;
  suggestions : Suggestions;
  message : string
}.

(** [Object.keys(suggestions)] *)
Definition suggestionKeys (suggestions : Suggestions) : list MarkerKey :=
  map fst suggestions.

(** [suggestions[key]]; [None] is [undefined], whether the property is
    absent or bound to [undefined]. *)
Fixpoint getSuggestion (suggestions : Suggestions) (key : MarkerKey)
  : option Point :=
  match suggestions with
  | [] => None
  | (k, v) :: rest =>
      if MarkerKey_eqb k key then v else getSuggestion rest key
  end.

(** [next[key] = suggestion] *)
Definition setMarker (next : MarkerMap) (key : MarkerKey) (value : Point)
  : MarkerMap :=
  fun k => if MarkerKey_eqb k key then value else next k.

(** The updater that [runAutoDetect] passes to [setMarkers]; [None] is the
    [null] marker state. *)
Definition mergeSuggestions
  (suggestions : Suggestions) (current : option MarkerMap)
  : option MarkerMap :=
  match current with
  | None => current
  | Some current =>
      let next := current in
      Some (fold_left
              (fun next key =>
                 match getSuggestion suggestions key with
                 | Some suggestion => setMarker next key suggestion
                 | None => next
                 end)
              (suggestionKeys suggestions) next)
  end.

(** The marker state after [runAutoDetect] has received [result]. *)
Definition runAutoDetect (result : AutoSuggestResult)
  (markers : option MarkerMap) : option MarkerMap :=
  match status result with
  | success => mergeSuggestions (suggestions result) markers
  | _ => markers
  end.

(** ** Saving a reading ([App.tsx], [utils/storage.ts]) *)

Module SavedReading.
Record t : Type := mk {
  id : string;
  savedAt : string;
  sourceCapturedAt : string;
  pdMm : number;
  confidence : number;
  qualityMessage : string;
  valid : bool;
  issues : list Issue;
  markers : MarkerMap;
  pupilPixelDistance : number;
  cardPixelWidth : number;
  mmPerPixel : number
}.
End SavedReading.

(** [measurement] of [App]: [markers ? calculatePd(markers) : null]. *)
Definition measurementOf (markers : option MarkerMap)
  : option MeasurementResult :=
  match markers with
  | Some markers => Some (calculatePd markers)
  | None => None
  end.

Inductive SaveOutcome : Type :=
| NothingToSave
| SavingError (savingError : string)
| Saved (reading : SavedReading.t).

(** [saveCurrentReading]; [newId] and [now] stand for [createReadingId()]
    and [new Date().toISOString()]. *)
Definition saveCurrentReading
  (photo : option CapturedPhoto) (markers : option MarkerMap)
  (measurement : option MeasurementResult) (newId now : string)
  : SaveOutcome :=
  match photo, markers, measurement with
  | Some photo, Some markers, Some measurement =>
      if negb (valid measurement)
      then SavingError "Fix highlighted issues before saving this measurement."
      else
        Saved {| SavedReading.id := newId;
                 SavedReading.savedAt := now;
                 SavedReading.sourceCapturedAt := capturedAt photo;
                 SavedReading.pdMm := pdMmRounded measurement;
                 SavedReading.confidence := confidence measurement;
                 SavedReading.qualityMessage := qualityMessage measurement;
                 SavedReading.valid := valid measurement;
                 SavedReading.issues := issues measurement;
                 SavedReading.markers := markers;
                 SavedReading.pupilPixelDistance :=
                   pupilPixelDistance measurement;
                 SavedReading.cardPixelWidth := cardPixelWidth measurement;
                 SavedReading.mmPerPixel := mmPerPixel measurement |}
  | _, _, _ => NothingToSave
  end.

(** [saveReading] of [utils/storage.ts]: [current] is the list read back
    from storage and [stored] tells whether [localStorage.setItem]
    succeeded. *)
Definition saveReading (reading : SavedReading.t)
  (current : list SavedReading.t) (stored : bool) : list SavedReading.t :=
  let next := firstn 25 (reading :: current) in
  if stored then next else current.

(** A measurement with its unrounded [pdMm] replaced. *)
Definition withPdMm (value : number) (measurement : MeasurementResult)
  : MeasurementResult :=
  {| pupilPixelDistance := pupilPixelDistance measurement;
     cardPixelWidth := cardPixelWidth measurement;
     mmPerPixel := mmPerPixel measurement;
     pdMm := value;
     pdMmRounded := pdMmRounded measurement;
     confidence := confidence measurement;
     qualityMessage := qualityMessage measurement;
     issues := issues measurement;
     valid := valid measurement |}.

(** ** The spec's formulas *)

Module Spec.

(** [round(x*2)/2] *)
Definition roundHalf (x : number) : number := (Math.round (x * 2) / 2)%js.

(** The confidence as the spec words it: the base score is clamped to
    [[0,1]], the penalty is subtracted when the PD is outside [[45, 80]],
    and the result is clamped again. *)
Definition confidence (markers : MarkerMap) : number :=
  let pupilPixelDistance :=
    distance (markers leftPupil) (markers rightPupil) in
  let cardPixelWidth := distance (markers leftCard) (markers rightCard) in
  let mmPerPixel :=
    (if cardPixelWidth >? 0 then 85.6 / cardPixelWidth else 0)%js in
  let pdMm := (pupilPixelDistance * mmPerPixel)%js in
  let tiltRatio :=
    (Math.abs (y (markers leftCard) - y (markers rightCard))
     / Math.max cardPixelWidth 1)%js in
  let scaleConfidence := clamp ((cardPixelWidth - 90) / 220)%js 0 1 in
  let tiltConfidence := (1 - clamp (tiltRatio / 0.2) 0 1)%js in
  let confidence :=
    clamp (0.35 + 0.45 * scaleConfidence + 0.20 * tiltConfidence)%js 0 1 in
  let confidence :=
    if ((pdMm <? 45) || (pdMm >? 80))%js
    then (confidence - 0.3)%js else confidence in
  clamp confidence 0 1.

End Spec.

(** ** Finite inputs

    The spec's [Point] carries finite coordinates.  On finite operands every
    operation but a division by zero stays finite, and is the operation of
    the same name on the reals. *)

Definition finitePoint (p : Point) : Prop :=
  Number.isFinite (x p) = true /\ Number.isFinite (y p) = true.

Definition finiteMarkers (markers : MarkerMap) : Prop :=
  forall key, finitePoint (markers key).

(** The real value of a finite number (0 for the others). *)
Definition toR (a : number) : R :=
  match a with
  | Finite r => r
  | _ => 0
  end.

(** [calculatePd] on finite markers, read in the reals: its two distances
    are reals [pupilPixelDistance] and [cardPixelWidth], and the other
    fields are these functions of them and of the tilt ratio. *)
Module Real.

Definition distance (x1 y1 x2 y2 : R) : R :=
  sqrt ((x1 - x2) * (x1 - x2) + (y1 - y2) * (y1 - y2)).

Definition clamp (value min max : R) : R := Rmin max (Rmax min value).

Definition mmPerPixel (cardPixelWidth : R) : R :=
  if Number.Rltb 0 cardPixelWidth then 85.6 / cardPixelWidth else 0.

Definition outOfRange (pdMm : R) : bool :=
  Number.Rltb pdMm 45 || Number.Rltb 80 pdMm.

Definition cardTiltRatio (dy cardPixelWidth : R) : R :=
  Rabs dy / Rmax cardPixelWidth 1.

Definition confidenceBeforePenalty (cardPixelWidth cardTiltRatio : R) : R :=
  0.35 + clamp ((cardPixelWidth - 90) / 220) 0 1 * 0.45
  + (1 - clamp (cardTiltRatio / 0.2) 0 1) * 0.2.

Definition confidence (pdMm cardPixelWidth cardTiltRatio : R) : R :=
  let c := confidenceBeforePenalty cardPixelWidth cardTiltRatio in
  clamp (if outOfRange pdMm then c - 0.3 else c) 0 1.

Definition issues (pdMm cardPixelWidth cardTiltRatio : R) : list Issue :=
  (if Number.Rltb cardPixelWidth 90 then [CardTooClose] else [])
  ++ (if outOfRange pdMm then [PdOutOfRange pdMm] else [])
  ++ (if Number.Rltb 0.2 cardTiltRatio then [CardTilted] else []).

Definition qualityMessage (confidence : R) (issues : list Issue) : string :=
  if Number.Rleb 0.75 confidence && (List.length issues =? 0)%nat
  then GOOD_QUALITY
  else if Number.Rleb 0.5 confidence then MODERATE_QUALITY
  else LOW_QUALITY.

Definition calculatePd (x1 y1 x2 y2 x3 y3 x4 y4 : R) : MeasurementResult :=
  let pupilPixelDistance := distance x1 y1 x2 y2 in
  let cardPixelWidth := distance x3 y3 x4 y4 in
  let cardTiltRatio := cardTiltRatio (y3 - y4) cardPixelWidth in
  let pdMm := pupilPixelDistance * mmPerPixel cardPixelWidth in
  let issues := issues pdMm cardPixelWidth cardTiltRatio in
  let confidence := confidence pdMm cardPixelWidth cardTiltRatio in
  mkMeasurement
    pupilPixelDistance
    cardPixelWidth
    (mmPerPixel cardPixelWidth)
    pdMm
    (Finite (IZR (Zfloor (pdMm * 2 + / 2)) / 2)%R)
    confidence
    (qualityMessage confidence issues)
    issues
    (List.length issues =? 0)%nat.

End Real.

(** ** Example inputs *)

(** The end-to-end scenario of the spec: card 400 px wide, pupils 200 px
    apart. *)
Definition scenarioMarkers : MarkerMap :=
  mkMarkerMap (mkPoint 400 480) (mkPoint 600 480)
              (mkPoint 300 200) (mkPoint 700 200).

(** A small but sufficient card (100 px), level, with pupils 70 px apart. *)
Definition moderateMarkers : MarkerMap :=
  mkMarkerMap (mkPoint 0 50) (mkPoint 70 50)
              (mkPoint 0 0) (mkPoint 100 0).

(** A pointer point half-way between two pupil markers 20 px apart, the
    card markers being far away. *)
Definition tiePoint : Point := mkPoint 10 0.
Definition tieMarkers : MarkerMap :=
  mkMarkerMap (mkPoint 0 0) (mkPoint 20 0) (mkPoint 10 100) (mkPoint 10 200).

(** A captured 1000 x 1000 photo. *)
Definition examplePhoto : CapturedPhoto :=
  mkPhoto "data:image/png;base64,AAAA" 1000 1000 "2024-05-01T10:00:00.000Z".

(** ** Proof automation *)

(** Decide one comparison of two finite numbers in the goal. *)
Ltac js_lt_cases :=
  match goal with
  | |- context [(Finite ?a <? Finite ?b)%js] =>
      change (Finite a <? Finite b)%js with (Number.Rltb a b);
      unfold Number.Rltb; destruct (Rlt_dec a b)
  end.

(** Run the loop of [nearestMarker] over distances known to be finite by
    [Hd : forall key, distance _ _ = Finite _]. *)
Ltac js_run_loop Hd :=
  repeat (first [rewrite Hd | js_lt_cases]; cbv beta iota).

(** Split [Rmin] and [Rmax] into their cases. *)
Ltac minmax_cases :=
  unfold Real.clamp, Rmin, Rmax; repeat destruct (Rle_dec _ _).

(** ** More of the source *)

(** [averagePoints] of [utils/geometry.ts]; [None] is [null] and
    [points.length] is the list length as a number. *)
Definition averagePoints (points : list Point) : option Point :=
  match points with
  | [] => None
  | _ =>
      let sum :=
        fold_left
          (fun acc point =>
             {| x := x acc + x point; y := y acc + y point |}%js)
          points {| x := 0; y := 0 |} in
      let length : number := INR (List.length points) in
      Some {| x := x sum / length; y := y sum / length |}%js
  end.

(** The [size] state of [AnnotationCanvas] (the content rectangle of the
    frame) and the [scale] memo computed from it. *)
Module Size.
Record t : Type := mk { width : number; height : number }.
End Size.

Definition canvasScale (size : Size.t) (photo : CapturedPhoto) : Point :=
  {| x := Size.width size / width photo;
     y := Size.height size / height photo |}%js.

(** [handlePointerMove]: [Some next] is the call [onMarkersChange(next)],
    [None] the early return. *)
Definition handlePointerMove
  (scale : Point) (photo : CapturedPhoto) (markers : MarkerMap)
  (activeMarker : option MarkerKey) (event : PointerEvent)
  : option MarkerMap :=
  match activeMarker with
  | None => None
  | Some activeMarker =>
      let nextPoint := getImagePointFromEvent scale photo event in
      Some (setMarker markers activeMarker nextPoint)
  end.

(** [handlePointerUp]: the new value of the [activeMarker] state. *)
Definition handlePointerUp (activeMarker : option MarkerKey)
  : option MarkerKey :=
  match activeMarker with
  | Some _ => None
  | None => activeMarker
  end.

(** *** Landmarks ([utils/landmarks.ts]) *)

Module Landmark.
Record t : Type := mk { x : number; y : number; z : option number }.
End Landmark.

Definition LEFT_IRIS_INDICES : list nat := [468; 469; 470; 471; 472]%nat.
Definition RIGHT_IRIS_INDICES : list nat := [473; 474; 475; 476; 477]%nat.
Definition LEFT_EYE_FALLBACK : list nat := [33; 133; 159; 145]%nat.
Definition RIGHT_EYE_FALLBACK : list nat := [362; 263; 386; 374]%nat.

Definition toPoint (landmark : Landmark.t) (width height : number) : Point :=
  {| x := Landmark.x landmark * width;
     y := Landmark.y landmark * height |}%js.

(** [indices.map(i => landmarks[i]).filter(Boolean).map(toPoint)]: an index
    past the end gives [undefined], which the filter drops. *)
Definition collectIndexedPoints
  (landmarks : list Landmark.t) (indices : list nat) (width height : number)
  : list Point :=
  map (fun landmark => toPoint landmark width height)
      (flat_map
         (fun index =>
            match nth_error landmarks index with
            | Some landmark => [landmark]
            | None => []
            end)
         indices).

(** [Math.min(...values)] and [Math.max(...values)]; without arguments they
    are [Infinity] and [-Infinity]. *)
Definition Math_min_of (values : list number) : number :=
  fold_left Math.min values PosInfinity.
Definition Math_max_of (values : list number) : number :=
  fold_left Math.max values NegInfinity.

Definition estimateCardCorners
  (landmarks : list Landmark.t) (width height : number)
  : option (Point * Point) :=
  match landmarks with
  | [] => None
  | _ =>
      let points := map (fun landmark => toPoint landmark width height)
                        landmarks in
      let xs := map x points in
      let ys := map y points in
      let minX := Math_min_of xs in
      let maxX := Math_max_of xs in
      let minY := Math_min_of ys in
      let maxY := Math_max_of ys in
      let forehead :=
        match nth_error landmarks 10 with
        | Some landmark => Some (toPoint landmark width height)
        | None => None
        end in
      let centerX :=
        match forehead with
        | Some forehead => x forehead
        | None => ((minX + maxX) / 2)%js
        end in
      let faceWidth := (maxX - minX)%js in
      let faceHeight := (maxY - minY)%js in
      let suggestedCardWidth := (faceWidth * 0.7)%js in
      let cardY :=
        ((match forehead with
          | Some forehead => y forehead
          | None => minY + faceHeight * 0.2
          end) - faceHeight * 0.05)%js in
      Some ({| x := centerX - suggestedCardWidth / 2; y := cardY |}%js,
            {| x := centerX + suggestedCardWidth / 2; y := cardY |}%js)
  end.

(** What [autoSuggestMarkers] awaits: the detection threw (also when the
    image or the model failed to load), or it returned with or without the
    [faceLandmarks] array. *)
Inductive Detection : Type :=
| DetectionThrew
| Detected (faceLandmarks : option (list (list Landmark.t))).

(** [a ?? b] on a possibly [null] point. *)
Definition orElse (a b : option Point) : option Point :=
  match a with
  | Some _ => a
  | None => b
  end.

(** [autoSuggestMarkers], from the outcome of the detection on. *)
Definition autoSuggestMarkers (detection : Detection) (width height : number)
  : AutoSuggestResult :=
  match detection with
  | DetectionThrew =>
      {| status := error;
         suggestions := [];
         message := "Auto-detection unavailable on this device. Manual mode is still available." |}
  | Detected faceLandmarks =>
      match match faceLandmarks with
            | Some faces => nth_error faces 0
            | None => None
            end with
      | None =>
          {| status := no_face;
             suggestions := [];
             message := "No face found. Place markers manually." |}
      | Some landmarks =>
          let leftIris :=
            averagePoints
              (collectIndexedPoints landmarks LEFT_IRIS_INDICES width height) in
          let rightIris :=
            averagePoints
              (collectIndexedPoints landmarks RIGHT_IRIS_INDICES width height) in
          let leftEyeFallback :=
            averagePoints
              (collectIndexedPoints landmarks LEFT_EYE_FALLBACK width height) in
          let rightEyeFallback :=
            averagePoints
              (collectIndexedPoints landmarks RIGHT_EYE_FALLBACK width height) in
          let cardCorners := estimateCardCorners landmarks width height in
          let leftPupil_ := orElse leftIris leftEyeFallback in
          let rightPupil_ := orElse rightIris rightEyeFallback in
          match leftPupil_, rightPupil_ with
          | Some leftPupil_, Some rightPupil_ =>
              let suggestions : Suggestions :=
                [(leftPupil, Some leftPupil_); (rightPupil, Some rightPupil_)] in
              let suggestions :=
                match cardCorners with
                | Some (leftCard_, rightCard_) =>
                    suggestions
                      ++ [(leftCard, Some leftCard_); (rightCard, Some rightCard_)]
                | None => suggestions
                end in
              {| status := success;
                 suggestions := suggestions;
                 message := "Auto-suggested markers loaded. Fine-tune points for best accuracy." |}
          | _, _ =>
              {| status := no_face;
                 suggestions := [];
                 message := "Face found, but eyes were unclear. Please set pupils manually." |}
          end
      end
  end.

(** A point within the image rectangle [[0, width] x [0, height]]. *)
Definition inImage (W H : R) (p : Point) : Prop :=
  exists px py : R, p = mkPoint px py /\ 0 <= px <= W /\ 0 <= py <= H.

(** The markers with the two pupils and the two card corners exchanged. *)
Definition swapSides (markers : MarkerMap) : MarkerMap :=
  mkMarkerMap (markers rightPupil) (markers leftPupil)
              (markers rightCard) (markers leftCard).

(** A landmark with finite coordinates, and one with the normalised
    coordinates of the detector's contract ([x] and [y] in [[0, 1]]). *)
Definition finiteLandmark (landmark : Landmark.t) : Prop :=
  exists a b : R,
    Landmark.x landmark = Finite a /\ Landmark.y landmark = Finite b.

Definition normalized (landmark : Landmark.t) : Prop :=
  exists a b : R,
    Landmark.x landmark = Finite a /\ Landmark.y landmark = Finite b
    /\ 0 <= a <= 1 /\ 0 <= b <= 1.

(** *** The capture and auto-detect state of [App] *)

Module App.

Inductive AppStep : Type := instructions | camera | annotate | result.

(** ["idle" | "loading" | "success" | "no-face" | "error"]: the last three
    are the statuses of a detection result. *)
Inductive AutoState : Type :=
| idle
| loading
| finished (status : AutoStatus).

Record State : Type := mk {
  step : AppStep;
  photo : option CapturedPhoto;
  markers : option MarkerMap;
  autoState : AutoState;
  autoMessage : string;
  savingError : option string
}.

(** [handleCapture]; [captured] is what [camera.capturePhoto()] returned. *)
Definition handleCapture (captured : option CapturedPhoto) (st : State)
  : State :=
  match captured with
  | None => st
  | Some captured =>
      {| step := annotate;
         photo := Some captured;
         markers :=
           Some (createDefaultMarkers (width captured) (height captured));
         autoState := idle;
         autoMessage := EmptyString;
         savingError := None |}
  end.

(** The condition of the effect that calls [runAutoDetect]. *)
Definition autoDetectEffect (st : State) : bool :=
  match step st, photo st, markers st, autoState st with
  | annotate, Some _, Some _, idle => true
  | _, _, _, _ => false
  end.

(** [runAutoDetect] up to its [await]. *)
Definition detectStarted (st : State) : State :=
  match photo st with
  | None => st
  | Some _ =>
      {| step := step st;
         photo := photo st;
         markers := markers st;
         autoState := loading;
         autoMessage := autoMessage st;
         savingError := savingError st |}
  end.

(** [runAutoDetect] after its [await], with the detector's result. *)
Definition detectFinished (result : AutoSuggestResult) (st : State) : State :=
  {| step := step st;
     photo := photo st;
     markers := runAutoDetect result (markers st);
     autoState := finished (status result);
     autoMessage := message result;
     savingError := savingError st |}.

(** [setMarkers(next)], the [onMarkersChange] of the canvas. *)
Definition markersChanged (next : MarkerMap) (st : State) : State :=
  {| step := step st;
     photo := photo st;
     markers := Some next;
     autoState := autoState st;
     autoMessage := autoMessage st;
     savingError := savingError st |}.

Definition retakePhoto (st : State) : State :=
  {| step := camera;
     photo := None;
     markers := None;
     autoState := idle;
     autoMessage := EmptyString;
     savingError := None |}.

(** What can happen between two captures: marker edits and the two halves
    of detection runs (a manual re-run included). *)
Inductive Event : Type :=
| MarkersChanged (next : MarkerMap)
| DetectStarted
| DetectFinished (result : AutoSuggestResult).

Definition apply (st : State) (event : Event) : State :=
  match event with
  | MarkersChanged next => markersChanged next st
  | DetectStarted => detectStarted st
  | DetectFinished detected => detectFinished detected st
  end.

End App.

(** ** The measurement engine under binary64 arithmetic

    The definitions above compute on finite numbers exactly.  JavaScript
    rounds every arithmetic result to binary64 and overflows to an infinity
    beyond the largest finite number.  To state what the source does where
    that matters, [calculatePd] is embedded once more, over any number type
    with its operations ([Generic]), and run in two arithmetics:
    - [Binary64]: Rocq's primitive binary64 numbers, which evaluate the code
      at concrete markers exactly as the machine does;
    - [Rounded]: the extended reals with every arithmetic result passed
      through a rounding function and an overflow threshold, of which only
      the properties that binary64 round-to-nearest has are assumed
      ([Rounded.Laws]); statements about all markers are proved there. *)

Module Generic.

Import QArith_base.

Record Ops (num : Type) : Type := mkOps {
  lit : Q -> num;                (* a decimal literal of the source *)
  add : num -> num -> num;
  sub : num -> num -> num;
  mul : num -> num -> num;
  div : num -> num -> num;
  lt : num -> num -> bool;
  le : num -> num -> bool;
  Math_abs : num -> num;
  Math_max : num -> num -> num;
  Math_min : num -> num -> num;
  Math_hypot : num -> num -> num;
  Math_round : num -> num
}.

Arguments lit {num} _ _%_Q.
Arguments add {num}.
Arguments sub {num}.
Arguments mul {num}.
Arguments div {num}.
Arguments lt {num}.
Arguments le {num}.
Arguments Math_abs {num}.
Arguments Math_max {num}.
Arguments Math_min {num}.
Arguments Math_hypot {num}.
Arguments Math_round {num}.

Record Point (num : Type) : Type := mkPoint { x : num; y : num }.

Arguments mkPoint {num}.
Arguments x {num}.
Arguments y {num}.

Definition MarkerMap (num : Type) : Type := MarkerKey -> Point num.

Definition mkMarkerMap {num : Type} (lp rp lc rc : Point num) : MarkerMap num :=
  fun key =>
    match key with
    | leftPupil => lp
    | rightPupil => rp
    | leftCard => lc
    | rightCard => rc
    end.

(** The issues, as in the exact model; the second carries [pdMm]. *)
Inductive Issue (num : Type) : Type :=
| CardTooClose
| PdOutOfRange (pdMm : num)
| CardTilted.

Arguments CardTooClose {num}.
Arguments PdOutOfRange {num}.
Arguments CardTilted {num}.

Record MeasurementResult (num : Type) : Type := mkMeasurement {
  pupilPixelDistance : num;
  cardPixelWidth : num;
  mmPerPixel : num;
  pdMm : num;
  pdMmRounded : num;
  confidence : num;
  qualityMessage : string;
  issues : list (Issue num);
  valid : bool
}.

Arguments pupilPixelDistance {num}.
Arguments cardPixelWidth {num}.
Arguments mmPerPixel {num}.
Arguments pdMm {num}.
Arguments pdMmRounded {num}.
Arguments confidence {num}.
Arguments qualityMessage {num}.
Arguments issues {num}.
Arguments valid {num}.

Declare Scope num_scope.
Delimit Scope num_scope with num.

Section Code.

Context {num : Type} (O : Ops num).

Local Notation "a + b" := (add O a b) : num_scope.
Local Notation "a - b" := (sub O a b) : num_scope.
Local Notation "a * b" := (mul O a b) : num_scope.
Local Notation "a / b" := (div O a b) : num_scope.
Local Notation "a <? b" := (lt O a b) (at level 70) : num_scope.
Local Notation "a >? b" := (lt O b a) (at level 70) : num_scope.
Local Notation "a >=? b" := (le O b a) (at level 70) : num_scope.
Local Notation "# q" := (lit O q) (at level 1, format "# q") : num_scope.

Definition CARD_WIDTH_MM : num := (#85.6)%num.
Definition MIN_CARD_PIXEL_WIDTH : num := (#90)%num.
Definition MIN_PD_MM : num := (#45)%num.
Definition MAX_PD_MM : num := (#80)%num.

Definition distance (a b : Point num) : num :=
  Math_hypot O (x a - x b)%num (y a - y b)%num.

Definition clamp (value min max : num) : num :=
  Math_min O max (Math_max O min value).

Definition push (issues : list (Issue num)) (issue : Issue num)
  : list (Issue num) :=
  issues ++ [issue].

Definition calculatePd (markers : MarkerMap num) : MeasurementResult num :=
  let pupilPixelDistance := distance (markers leftPupil) (markers rightPupil) in
  let cardPixelWidth := distance (markers leftCard) (markers rightCard) in
  let mmPerPixel :=
    (if cardPixelWidth >? #0 then CARD_WIDTH_MM / cardPixelWidth else #0)%num in
  let pdMm := (pupilPixelDistance * mmPerPixel)%num in
  let pdMmRounded := (Math_round O (pdMm * #2) / #2)%num in
  let issues : list (Issue num) := [] in
  let issues :=
    if (cardPixelWidth <? MIN_CARD_PIXEL_WIDTH)%num
    then push issues CardTooClose else issues in
  let issues :=
    if ((pdMm <? MIN_PD_MM) || (pdMm >? MAX_PD_MM))%num
    then push issues (PdOutOfRange pdMm) else issues in
  let cardTiltRatio :=
    (Math_abs O (y (markers leftCard) - y (markers rightCard))
     / Math_max O cardPixelWidth #1)%num in
  let issues :=
    if (cardTiltRatio >? #0.2)%num then push issues CardTilted else issues in
  let scaleConfidence :=
    clamp ((cardPixelWidth - MIN_CARD_PIXEL_WIDTH) / #220)%num
          (#0)%num (#1)%num in
  let tiltConfidence :=
    (#1 - clamp (cardTiltRatio / #0.2) #0 #1)%num in
  let confidence :=
    (#0.35 + scaleConfidence * #0.45 + tiltConfidence * #0.2)%num in
  let confidence :=
    if ((pdMm <? MIN_PD_MM) || (pdMm >? MAX_PD_MM))%num
    then (confidence - #0.3)%num else confidence in
  let confidence := clamp confidence (#0)%num (#1)%num in
  let qualityMessage := LOW_QUALITY in
  let qualityMessage :=
    if (confidence >=? #0.75)%num && (List.length issues =? 0)%nat
    then GOOD_QUALITY
    else if (confidence >=? #0.5)%num then MODERATE_QUALITY
    else qualityMessage in
  {| pupilPixelDistance := pupilPixelDistance;
     cardPixelWidth := cardPixelWidth;
     mmPerPixel := mmPerPixel;
     pdMm := pdMm;
     pdMmRounded := pdMmRounded;
     confidence := confidence;
     qualityMessage := qualityMessage;
     issues := issues;
     valid := (List.length issues =? 0)%nat |}.

(** The value of [confidence] before the out-of-range penalty and the final
    clamp (the first assignment to [confidence] in [calculatePd]). *)
Definition confidenceBeforePenalty (markers : MarkerMap num) : num :=
  let cardPixelWidth := distance (markers leftCard) (markers rightCard) in
  let cardTiltRatio :=
    (Math_abs O (y (markers leftCard) - y (markers rightCard))
     / Math_max O cardPixelWidth #1)%num in
  let scaleConfidence :=
    clamp ((cardPixelWidth - MIN_CARD_PIXEL_WIDTH) / #220)%num
          (#0)%num (#1)%num in
  let tiltConfidence :=
    (#1 - clamp (cardTiltRatio / #0.2) #0 #1)%num in
  (#0.35 + scaleConfidence * #0.45 + tiltConfidence * #0.2)%num.

End Code.

End Generic.

(** *** Binary64: the machine's numbers *)

Module Binary64.

Import QArith_base PrimFloat.
Local Open Scope float_scope.

(** A positive integer as a binary64 number, exact below 2^53. *)
Fixpoint of_pos (p : positive) : float :=
  match p with
  | xH => 1
  | xO q => 2 * of_pos q
  | xI q => 2 * of_pos q + 1
  end.

Definition of_Z (z : Z) : float :=
  match z with
  | Z0 => 0
  | Zpos p => of_pos p
  | Zneg p => - of_pos p
  end.

(** A decimal literal [n / d]: numerator and denominator are exact and the
    division rounds once, to the binary64 number nearest to the decimal. *)
Definition lit (q : Q) : float := of_Z (Qnum q) / of_pos (Qden q).

(** [Math.max] and [Math.min]: [NaN] if an argument is [NaN]; of two zeros
    the maximum is [-0] only if both are, the minimum [+0] only if both
    are, which is what the sum of two zeros gives. *)
Definition Math_max (a b : float) : float :=
  if is_nan a || is_nan b then nan
  else if a <? b then b
  else if b <? a then a
  else if is_zero a then a + b else a.

Definition Math_min (a b : float) : float :=
  if is_nan a || is_nan b then nan
  else if b <? a then b
  else if a <? b then a
  else if is_zero a then - (- a + - b) else a.

(** [Math.hypot] is implementation-approximated in ECMAScript.  An infinite
    argument gives [Infinity] and otherwise a [NaN] argument gives [NaN], as
    the standard requires; on finite arguments it is taken as the rounded
    square root of the rounded sum of squares, which is the exact result
    whenever, as at the markers evaluated below, the squares, their sum and
    its root are binary64 numbers. *)
Definition Math_hypot (a b : float) : float :=
  if is_infinity a || is_infinity b then infinity
  else if is_nan a || is_nan b then nan
  else sqrt (a * a + b * b).

(** [Math.round]: the nearest integer, a tie going towards +Infinity; a
    zero keeps its sign.  From 2^52 on every binary64 number is an integer;
    below, [(a + 2^52) - 2^52] is an integer next to [a], from which the
    floor and the fraction of [a] follow without rounding. *)
Definition Math_round (v : float) : float :=
  if is_nan v || is_infinity v || is_zero v || (0x1p52 <=? abs v) then v
  else
    let a := abs v in
    let t := (a + 0x1p52) - 0x1p52 in
    let f := if a <? t then t - 1 else t in
    let d := a - f in
    if v <? 0
    then (if 0x1p-1 <? d then - (f + 1) else - f)
    else (if 0x1p-1 <=? d then f + 1 else f).

Definition ops : Generic.Ops float :=
  {| Generic.lit := lit;
     Generic.add := PrimFloat.add;
     Generic.sub := PrimFloat.sub;
     Generic.mul := PrimFloat.mul;
     Generic.div := PrimFloat.div;
     Generic.lt := PrimFloat.ltb;
     Generic.le := PrimFloat.leb;
     Generic.Math_abs := PrimFloat.abs;
     Generic.Math_max := Math_max;
     Generic.Math_min := Math_min;
     Generic.Math_hypot := Math_hypot;
     Generic.Math_round := Math_round |}.

Definition calculatePd : Generic.MarkerMap float -> Generic.MeasurementResult float :=
  Generic.calculatePd ops.

(** Pupils at (2^1023, 0) and (-2^1023, 0), about 9e307 on either side, and
    both card corners at the origin. *)
Definition farPupils : Generic.MarkerMap float :=
  Generic.mkMarkerMap
    (Generic.mkPoint 0x1p1023 0) (Generic.mkPoint (- 0x1p1023) 0)
    (Generic.mkPoint 0 0) (Generic.mkPoint 0 0).

(** Pupils 100 px apart and a card 50 px wide, from (0,0) to (30,40). *)
Definition smallTiltedCard : Generic.MarkerMap float :=
  Generic.mkMarkerMap
    (Generic.mkPoint 0 0) (Generic.mkPoint 100 0)
    (Generic.mkPoint 0 0) (Generic.mkPoint 30 40).

End Binary64.

(** *** Rounded: the reals with a rounding and an overflow threshold *)

Module Rounded.

Import QArith_base Qreals.
Local Open Scope R_scope.

(** [rnd a] is the representable number to which the exact result [a] is
    rounded, were the exponent unbounded above; [Omega] is the largest
    finite number, beyond which a rounded result is an infinity; [hyp r s]
    is what [Math.hypot] computes on finite arguments, before the overflow
    test.  The sign of zero is not modelled. *)
Record Rounding : Type := mkRounding {
  rnd : R -> R;
  Omega : R;
  hyp : R -> R -> R
}.

(** What is assumed of them; binary64 round-to-nearest satisfies it, with
    [Omega = (2 - 2^-52) * 2^1023], and so does exact arithmetic. *)
Record Laws (Rd : Rounding) : Prop := mkLaws {
  rnd_le : forall a b : R, a <= b -> rnd Rd a <= rnd Rd b;
  rnd_IZR : forall z : Z, (Z.abs z <= 2 ^ 53)%Z -> rnd Rd (IZR z) = IZR z;
  rnd_rnd : forall a : R, rnd Rd (rnd Rd a) = rnd Rd a;
  rnd_error : forall a : R, Rabs a <= 2 -> Rabs (rnd Rd a - a) <= / 2 ^ 53;
  Omega_large : 2 ^ 53 <= Omega Rd;
  hyp_nonneg : forall r s : R, 0 <= hyp Rd r s;
  hyp_0 : hyp Rd 0 0 = 0
}.

Section Ops.

Variable Rd : Rounding.

(** The number that an exact finite result [a] becomes. *)
Definition fl (a : R) : number :=
  if Rle_dec (Rabs (rnd Rd a)) (Omega Rd) then Finite (rnd Rd a)
  else if Number.Rltb 0 a then PosInfinity else NegInfinity.

Definition lit (q : Q) : number := fl (Q2R q).

Definition add (a b : number) : number :=
  match a, b with
  | Finite r, Finite s => fl (r + s)
  | _, _ => Number.add a b
  end.

Definition sub (a b : number) : number :=
  match a, b with
  | Finite r, Finite s => fl (r - s)
  | _, _ => Number.sub a b
  end.

Definition mul (a b : number) : number :=
  match a, b with
  | Finite r, Finite s => fl (r * s)
  | _, _ => Number.mul a b
  end.

Definition div (a b : number) : number :=
  match a, b with
  | Finite r, Finite s =>
      if Req_dec_T s 0 then Number.div a b else fl (r / s)
  | _, _ => Number.div a b
  end.

Definition Math_hypot (a b : number) : number :=
  match a, b with
  | Finite r, Finite s =>
      if Rle_dec (hyp Rd r s) (Omega Rd) then Finite (hyp Rd r s)
      else PosInfinity
  | _, _ => Math.hypot a b
  end.

Definition ops : Generic.Ops number :=
  {| Generic.lit := lit;
     Generic.add := add;
     Generic.sub := sub;
     Generic.mul := mul;
     Generic.div := div;
     Generic.lt := Number.lt;
     Generic.le := Number.le;
     Generic.Math_abs := Math.abs;
     Generic.Math_max := Math.max;
     Generic.Math_min := Math.min;
     Generic.Math_hypot := Math_hypot;
     Generic.Math_round := Math.round |}.

Definition calculatePd
  : Generic.MarkerMap number -> Generic.MeasurementResult number :=
  Generic.calculatePd ops.

Definition confidenceBeforePenalty : Generic.MarkerMap number -> number :=
  Generic.confidenceBeforePenalty ops.

End Ops.

(** A number other than [NaN], and one that moreover is not negative. *)
Definition isNumber (a : number) : Prop :=
  match a with
  | NaN => False
  | _ => True
  end.

Definition nonneg (a : number) : Prop :=
  match a with
  | Finite r => 0 <= r
  | PosInfinity => True
  | _ => False
  end.

Definition finitePoint (p : Generic.Point number) : Prop :=
  Number.isFinite (Generic.x p) = true /\ Number.isFinite (Generic.y p) = true.

Definition finiteMarkers (markers : Generic.MarkerMap number) : Prop :=
  forall key, finitePoint (markers key).

(** Exact arithmetic as a rounding: nothing is rounded, and the threshold
    is 2^1024. *)
Definition exact : Rounding :=
  {| rnd := fun a => a;
     Omega := 2 ^ 1024;
     hyp := fun r s => sqrt (r * r + s * s) |}.

(** Pupils 200 px apart and both card corners at (500, 200). *)
Definition coincidentCard : Generic.MarkerMap number :=
  Generic.mkMarkerMap
    (Generic.mkPoint (Finite 400) (Finite 480))
    (Generic.mkPoint (Finite 600) (Finite 480))
    (Generic.mkPoint (Finite 500) (Finite 200))
    (Generic.mkPoint (Finite 500) (Finite 200)).

(** The markers of [Binary64.smallTiltedCard]. *)
Definition smallTiltedCard : Generic.MarkerMap number :=
  Generic.mkMarkerMap
    (Generic.mkPoint (Finite 0) (Finite 0))
    (Generic.mkPoint (Finite 100) (Finite 0))
    (Generic.mkPoint (Finite 0) (Finite 0))
    (Generic.mkPoint (Finite 30) (Finite 40)).

End Rounded.

(** * Proofs *)

(** ** Finite numbers compute in the reals *)

Lemma isFinite_inv (a : number) :
  Number.isFinite a = true -> exists r : R, a = Finite r.
Proof. destruct a; try discriminate; eauto. Qed.

Lemma finitePoint_inv (p : Point) :
  finitePoint p -> exists a b : R, p = mkPoint a b.
Proof.
  destruct p as [px py]; intros [Hx Hy]; simpl in *.
  destruct (isFinite_inv _ Hx) as [a ->], (isFinite_inv _ Hy) as [b ->]; eauto.
Qed.

Lemma finitePoint_mk (a b : R) : finitePoint (mkPoint a b).
Proof. split; reflexivity. Qed.

Lemma Rltb_true (a b : R) : Number.Rltb a b = true <-> a < b.
Proof.
  unfold Number.Rltb; destruct (Rlt_dec a b); split; intros;
    try discriminate; try lra; auto.
Qed.

Lemma Rltb_false (a b : R) : Number.Rltb a b = false <-> b <= a.
Proof.
  unfold Number.Rltb; destruct (Rlt_dec a b); split; intros;
    try discriminate; try lra; auto.
Qed.

Lemma Rleb_true (a b : R) : Number.Rleb a b = true <-> a <= b.
Proof.
  unfold Number.Rleb; destruct (Rle_dec a b); split; intros;
    try discriminate; try lra; auto.
Qed.

Lemma Rleb_false (a b : R) : Number.Rleb a b = false <-> b < a.
Proof.
  unfold Number.Rleb; destruct (Rle_dec a b); split; intros;
    try discriminate; try lra; auto.
Qed.

Lemma div_Finite (r s : R) :
  s <> 0 -> (Finite r / Finite s)%js = Finite (r / s).
Proof.
  intros Hs; unfold Number.div.
  destruct (Req_dec_T s 0); [contradiction | reflexivity].
Qed.

Lemma distance_Finite (x1 y1 x2 y2 : R) :
  distance (mkPoint x1 y1) (mkPoint x2 y2)
  = Finite (Real.distance x1 y1 x2 y2).
Proof. reflexivity. Qed.

Lemma clamp_Finite (value min max : R) :
  clamp (Finite value) (Finite min) (Finite max)
  = Finite (Real.clamp value min max).
Proof. reflexivity. Qed.

Lemma Real_distance_nonneg (x1 y1 x2 y2 : R) :
  0 <= Real.distance x1 y1 x2 y2.
Proof. apply sqrt_pos. Qed.

Lemma Rmax_1_neq_0 (w : R) : Rmax w 1 <> 0.
Proof. pose proof (Rmax_r w 1); lra. Qed.

Lemma Real_clamp_bounds (value min max : R) :
  min <= max -> min <= Real.clamp value min max <= max.
Proof.
  intros H; minmax_cases; lra.
Qed.

Lemma Real_clamp_id (value min max : R) :
  min <= value <= max -> Real.clamp value min max = value.
Proof.
  intros H; minmax_cases; lra.
Qed.

Lemma Real_clamp_id_eq (value min max r : R) :
  min <= value <= max -> value = r -> Real.clamp value min max = r.
Proof. intros H <-; apply Real_clamp_id, H. Qed.

Lemma mmPerPixel_Finite (w : R) :
  (if (Finite w >? 0)%js then (CARD_WIDTH_MM / Finite w)%js else Finite 0)
  = Finite (Real.mmPerPixel w).
Proof.
  unfold Real.mmPerPixel, Number.gt, Number.lt, CARD_WIDTH_MM.
  destruct (Number.Rltb 0 w) eqn:Hw; [| reflexivity].
  apply Rltb_true in Hw. apply div_Finite; lra.
Qed.

Lemma cardTiltRatio_Finite (y3 y4 w : R) :
  (Math.abs (Finite y3 - Finite y4) / Math.max (Finite w) 1)%js
  = Finite (Real.cardTiltRatio (y3 - y4) w).
Proof. apply div_Finite, Rmax_1_neq_0. Qed.

Lemma confidenceBeforePenalty_Finite (markers : MarkerMap) (x3 y3 x4 y4 : R) :
  markers leftCard = mkPoint x3 y3 ->
  markers rightCard = mkPoint x4 y4 ->
  confidenceBeforePenalty markers
  = Finite (Real.confidenceBeforePenalty
              (Real.distance x3 y3 x4 y4)
              (Real.cardTiltRatio (y3 - y4) (Real.distance x3 y3 x4 y4))).
Proof.
  intros H3 H4; unfold confidenceBeforePenalty; rewrite H3, H4; cbn [x y].
  rewrite distance_Finite, cardTiltRatio_Finite.
  unfold MIN_CARD_PIXEL_WIDTH.
  change (Finite (Real.distance x3 y3 x4 y4) - Finite 90)%js
    with (Finite (Real.distance x3 y3 x4 y4 - 90)).
  rewrite !div_Finite by lra.
  rewrite !clamp_Finite. reflexivity.
Qed.

(** [calculatePd] on markers with finite coordinates. *)
Lemma calculatePd_Finite (markers : MarkerMap) (x1 y1 x2 y2 x3 y3 x4 y4 : R) :
  markers leftPupil = mkPoint x1 y1 ->
  markers rightPupil = mkPoint x2 y2 ->
  markers leftCard = mkPoint x3 y3 ->
  markers rightCard = mkPoint x4 y4 ->
  calculatePd markers = Real.calculatePd x1 y1 x2 y2 x3 y3 x4 y4.
Proof.
  intros H1 H2 H3 H4.
  unfold calculatePd, Real.calculatePd.
  rewrite H1, H2, H3, H4; cbn [x y].
  rewrite !distance_Finite.
  set (pp := Real.distance x1 y1 x2 y2).
  set (w := Real.distance x3 y3 x4 y4).
  rewrite mmPerPixel_Finite, cardTiltRatio_Finite.
  set (t := Real.cardTiltRatio (y3 - y4) w).
  unfold Real.issues, Real.confidence, Real.qualityMessage,
    Real.confidenceBeforePenalty, Real.outOfRange,
    MIN_PD_MM, MAX_PD_MM, MIN_CARD_PIXEL_WIDTH.
  change (Finite w - Finite 90)%js with (Finite (w - 90)).
  change (Finite pp * Finite (Real.mmPerPixel w))%js
    with (Finite (pp * Real.mmPerPixel w)).
  set (pd := pp * Real.mmPerPixel w).
  change (Finite pd * Finite 2)%js with (Finite (pd * 2)).
  change (Math.round (Finite (pd * 2)))
    with (Finite (IZR (Zfloor (pd * 2 + / 2)))).
  rewrite (div_Finite _ 220), (div_Finite _ 0.2), (div_Finite _ 2) by lra.
  change (Finite pd <? Finite 45)%js with (Number.Rltb pd 45).
  change (Finite pd >? Finite 80)%js with (Number.Rltb 80 pd).
  change (Finite w <? Finite 90)%js with (Number.Rltb w 90).
  change (Finite t >? Finite 0.2)%js with (Number.Rltb 0.2 t).
  destruct (Number.Rltb w 90), (Number.Rltb pd 45 || Number.Rltb 80 pd),
    (Number.Rltb 0.2 t); reflexivity.
Qed.


Lemma finiteMarkers_inv (markers : MarkerMap) :
  finiteMarkers markers ->
  exists x1 y1 x2 y2 x3 y3 x4 y4 : R,
    markers leftPupil = mkPoint x1 y1 /\ markers rightPupil = mkPoint x2 y2 /\
    markers leftCard = mkPoint x3 y3 /\ markers rightCard = mkPoint x4 y4.
Proof.
  intros H.
  destruct (finitePoint_inv _ (H leftPupil)) as (x1 & y1 & H1).
  destruct (finitePoint_inv _ (H rightPupil)) as (x2 & y2 & H2).
  destruct (finitePoint_inv _ (H leftCard)) as (x3 & y3 & H3).
  destruct (finitePoint_inv _ (H rightCard)) as (x4 & y4 & H4).
  exists x1, y1, x2, y2, x3, y3, x4, y4; auto.
Qed.

Lemma finiteMarkers_mk (x1 y1 x2 y2 x3 y3 x4 y4 : R) :
  finiteMarkers
    (mkMarkerMap (mkPoint x1 y1) (mkPoint x2 y2) (mkPoint x3 y3) (mkPoint x4 y4)).
Proof. intros []; apply finitePoint_mk. Qed.

(** ** The measurement in the reals *)

Lemma Real_distance_same (x1 y1 : R) : Real.distance x1 y1 x1 y1 = 0.
Proof.
  unfold Real.distance.
  replace ((x1 - x1) * (x1 - x1) + (y1 - y1) * (y1 - y1)) with 0 by ring.
  apply sqrt_0.
Qed.

Lemma Real_distance_horizontal (x1 x2 y1 : R) :
  x1 <= x2 -> Real.distance x1 y1 x2 y1 = x2 - x1.
Proof.
  intros H; unfold Real.distance.
  replace ((x1 - x2) * (x1 - x2) + (y1 - y1) * (y1 - y1))
    with ((x2 - x1) * (x2 - x1)) by ring.
  apply sqrt_square; lra.
Qed.


Lemma Real_mmPerPixel_pos (w : R) : 0 < w -> Real.mmPerPixel w = 85.6 / w.
Proof.
  intros H; unfold Real.mmPerPixel.
  apply Rltb_true in H; rewrite H; reflexivity.
Qed.

Lemma Real_outOfRange_true (pd : R) :
  Real.outOfRange pd = true <-> pd < 45 \/ 80 < pd.
Proof.
  unfold Real.outOfRange.
  rewrite orb_true_iff, !Rltb_true; tauto.
Qed.

Lemma Real_outOfRange_false (pd : R) :
  Real.outOfRange pd = false <-> 45 <= pd <= 80.
Proof.
  unfold Real.outOfRange.
  rewrite orb_false_iff, !Rltb_false; tauto.
Qed.

Lemma Real_cardTiltRatio_nonneg (dy w : R) : 0 <= Real.cardTiltRatio dy w.
Proof.
  unfold Real.cardTiltRatio.
  pose proof (Rabs_pos dy); pose proof (Rmax_r w 1).
  apply Rmult_le_pos; [assumption |].
  left; apply Rinv_0_lt_compat; lra.
Qed.

Lemma Real_cardTiltRatio_level (w : R) : Real.cardTiltRatio 0 w = 0.
Proof. unfold Real.cardTiltRatio; rewrite Rabs_R0; unfold Rdiv; ring. Qed.

Lemma Real_cardTiltRatio_level' (y1 w : R) : Real.cardTiltRatio (y1 - y1) w = 0.
Proof. replace (y1 - y1) with 0 by ring; apply Real_cardTiltRatio_level. Qed.

Lemma Zfloor_IZR_half (z : Z) : Zfloor (IZR z + / 2) = z.
Proof. apply Zfloor_eq; lra. Qed.

(** [calculatePd] on any marker map with finite coordinates. *)
Lemma calculatePd_finiteMarkers (markers : MarkerMap) :
  finiteMarkers markers ->
  exists x1 y1 x2 y2 x3 y3 x4 y4 : R,
    markers leftCard = mkPoint x3 y3 /\ markers rightCard = mkPoint x4 y4
    /\ calculatePd markers = Real.calculatePd x1 y1 x2 y2 x3 y3 x4 y4.
Proof.
  intros H.
  destruct (finiteMarkers_inv _ H)
    as (x1 & y1 & x2 & y2 & x3 & y3 & x4 & y4 & H1 & H2 & H3 & H4).
  exists x1, y1, x2, y2, x3, y3, x4, y4.
  split; [assumption | split; [assumption |]].
  apply calculatePd_Finite; assumption.
Qed.

Lemma calculatePd_mk (x1 y1 x2 y2 x3 y3 x4 y4 : R) :
  calculatePd
    (mkMarkerMap (mkPoint x1 y1) (mkPoint x2 y2) (mkPoint x3 y3) (mkPoint x4 y4))
  = Real.calculatePd x1 y1 x2 y2 x3 y3 x4 y4.
Proof. apply calculatePd_Finite; reflexivity. Qed.

(** ** The end-to-end scenario *)

(** C7.  For [leftCard = (300,200)], [rightCard = (700,200)],
    [leftPupil = (400,480)], [rightPupil = (600,480)], [calculatePd] returns
    a card width of 400 px and a pupil distance of 200 px,
    [mmPerPixel = 85.6/400 = 0.214], [pdMm = 42.8], [pdMmRounded = 43], the
    out-of-range issue (for 42.8, which is below 45) as its only issue, and
    [valid = false]. *)
Theorem calculatePd_scenario :
  let result := calculatePd scenarioMarkers in
  pupilPixelDistance result = Finite 200
  /\ cardPixelWidth result = Finite 400
  /\ mmPerPixel result = Finite (85.6 / 400)
  /\ mmPerPixel result = Finite 0.214
  /\ pdMm result = Finite 42.8
  /\ pdMmRounded result = Finite 43
  /\ issues result = [PdOutOfRange (Finite 42.8)]
  /\ In (PdOutOfRange (Finite 42.8)) (issues result)
  /\ (42.8 <? MIN_PD_MM)%js = true
  /\ valid result = false.
Proof.
  cbv zeta; unfold scenarioMarkers; rewrite calculatePd_mk.
  unfold Real.calculatePd.
  rewrite !Real_distance_horizontal by lra.
  rewrite Real_cardTiltRatio_level'.
  cbn [pupilPixelDistance cardPixelWidth mmPerPixel pdMm pdMmRounded issues
       valid].
  rewrite Real_mmPerPixel_pos by lra.
  replace ((600 - 400) * (85.6 / (700 - 300))) with 42.8 by lra.
  assert (Hissues : Real.issues 42.8 (700 - 300) 0 = [PdOutOfRange (Finite 42.8)]).
  { unfold Real.issues.
    assert (H1 : Number.Rltb (700 - 300) 90 = false) by (apply Rltb_false; lra).
    assert (H2 : Real.outOfRange 42.8 = true)
      by (apply Real_outOfRange_true; lra).
    assert (H3 : Number.Rltb 0.2 0 = false) by (apply Rltb_false; lra).
    rewrite H1, H2, H3; reflexivity. }
  rewrite Hissues.
  assert (Hfloor : Zfloor (42.8 * 2 + / 2) = 86%Z) by (apply Zfloor_eq; lra).
  rewrite Hfloor.
  repeat split; try (f_equal; lra).
  - left; reflexivity.
  - apply Rltb_true; lra.
Qed.

(** ** Confidence *)

(** A value clamped to [[0,1]] is [NaN] or a real of that interval, whatever
    the number that is clamped. *)
Lemma clamp_unit_cases (v : number) :
  clamp v 0 1 = NaN \/ exists r : R, clamp v 0 1 = Finite r /\ 0 <= r <= 1.
Proof.
  destruct v as [r | | |]; [right | right | right | left; reflexivity].
  - exists (Real.clamp r 0 1); split; [reflexivity |].
    apply Real_clamp_bounds; lra.
  - exists 1; split; [reflexivity | lra].
  - exists 0; split; [| lra].
    unfold clamp; cbn [Math.max Math.min]; f_equal.
    minmax_cases; lra.
Qed.

(** The base score is [NaN] or a real of [[0.35, 1]], and the spec's word
    order and extra clamp do not change it. *)
Lemma base_score_cases (a b : number) :
  let code := (0.35 + clamp a 0 1 * 0.45 + (1 - clamp b 0 1) * 0.2)%js in
  let spec := (0.35 + 0.45 * clamp a 0 1 + 0.20 * (1 - clamp b 0 1))%js in
  (code = NaN /\ spec = NaN)
  \/ exists r : R, code = Finite r /\ spec = Finite r /\ 0.35 <= r <= 1.
Proof.
  cbv zeta.
  destruct (clamp_unit_cases a) as [-> | (ra & -> & Ha)];
    destruct (clamp_unit_cases b) as [-> | (rb & -> & Hb)];
    try (left; split; reflexivity).
  right; exists (0.35 + ra * 0.45 + (1 - rb) * 0.2); repeat split; try lra.
  cbn [Number.add Number.sub Number.mul Number.neg]; f_equal; lra.
Qed.

(** C2.  For every marker map the confidence returned by [calculatePd] is the
    spec's formula: [clamp(0.35 + 0.45*scaleConfidence + 0.20*tiltConfidence,
    0, 1)], less 0.3 exactly when [pdMm] is below 45 or above 80, clamped
    again to [[0,1]]. *)
Theorem calculatePd_confidence_spec (markers : MarkerMap) :
  confidence (calculatePd markers) = Spec.confidence markers.
Proof.
  unfold calculatePd, Spec.confidence; cbv zeta; cbn [confidence].
  unfold MIN_CARD_PIXEL_WIDTH, MIN_PD_MM, MAX_PD_MM, CARD_WIDTH_MM.
  set (pp := distance (markers leftPupil) (markers rightPupil)).
  set (w := distance (markers leftCard) (markers rightCard)).
  set (pd := (pp * (if (w >? 0)%js then (85.6 / w)%js else Finite 0))%js).
  set (a := ((w - 90) / 220)%js).
  set (b := (Math.abs (y (markers leftCard) - y (markers rightCard))
             / Math.max w 1 / 0.2)%js).
  destruct (base_score_cases a b) as [[-> ->] | (r & -> & -> & Hr)].
  - reflexivity.
  - rewrite (clamp_Finite r 0 1), Real_clamp_id by lra. reflexivity.
Qed.

(** ** Quality message *)

Lemma calculatePd_moderateMarkers :
  calculatePd moderateMarkers
  = mkMeasurement 70 100 0.856 59.92 60 (0.55 + 0.45 / 22)%R
      MODERATE_QUALITY [] true.
Proof.
  unfold moderateMarkers; rewrite calculatePd_mk; unfold Real.calculatePd.
  rewrite !Real_distance_horizontal by lra.
  rewrite Real_cardTiltRatio_level'.
  rewrite Real_mmPerPixel_pos by lra.
  replace (70 - 0) with 70 by lra.
  replace (100 - 0) with 100 by lra.
  replace (85.6 / 100) with 0.856 by lra.
  replace (70 * 0.856) with 59.92 by lra.
  assert (Hout : Real.outOfRange 59.92 = false)
    by (apply Real_outOfRange_false; lra).
  assert (Hissues : Real.issues 59.92 100 0 = []).
  { unfold Real.issues; rewrite Hout.
    assert (H1 : Number.Rltb 100 90 = false) by (apply Rltb_false; lra).
    assert (H3 : Number.Rltb 0.2 0 = false) by (apply Rltb_false; lra).
    rewrite H1, H3; reflexivity. }
  assert (Hconf : Real.confidence 59.92 100 0 = 0.55 + 0.45 / 22).
  { unfold Real.confidence, Real.confidenceBeforePenalty; rewrite Hout.
    rewrite (Real_clamp_id ((100 - 90) / 220)) by lra.
    rewrite (Real_clamp_id (0 / 0.2)) by lra.
    apply Real_clamp_id_eq; lra. }
  rewrite Hissues, Hconf.
  assert (Hfloor : Zfloor (59.92 * 2 + / 2) = 120%Z) by (apply Zfloor_eq; lra).
  rewrite Hfloor.
  assert (Hmsg : Real.qualityMessage (0.55 + 0.45 / 22) [] = MODERATE_QUALITY).
  { unfold Real.qualityMessage.
    assert (H1 : Number.Rleb 0.75 (0.55 + 0.45 / 22) = false)
      by (apply Rleb_false; lra).
    assert (H2 : Number.Rleb 0.5 (0.55 + 0.45 / 22) = true)
      by (apply Rleb_true; lra).
    rewrite H1, H2; reflexivity. }
  rewrite Hmsg.
  replace (IZR 120 / 2) with 60 by lra.
  reflexivity.
Qed.

(** C8.  For every marker map with finite coordinates, the quality message
    of [calculatePd] is the "good" message iff the confidence is at least
    0.75 and there is no issue; otherwise the "moderate" message iff the
    confidence is at least 0.5; otherwise the "low" message.  The message
    does not follow the [valid] flag: some marker map gives a valid result
    (no issue) with the "moderate" message. *)
Theorem calculatePd_qualityMessage :
  (forall markers : MarkerMap,
      finiteMarkers markers ->
      let result := calculatePd markers in
      exists c : R,
        confidence result = Finite c
        /\ (valid result = true <-> issues result = [])
        /\ (qualityMessage result = GOOD_QUALITY
            <-> 0.75 <= c /\ issues result = [])
        /\ (qualityMessage result = MODERATE_QUALITY
            <-> ~ (0.75 <= c /\ issues result = []) /\ 0.5 <= c)
        /\ (qualityMessage result = LOW_QUALITY
            <-> ~ (0.75 <= c /\ issues result = []) /\ ~ 0.5 <= c))
  /\ (exists markers : MarkerMap,
         finiteMarkers markers
         /\ valid (calculatePd markers) = true
         /\ issues (calculatePd markers) = []
         /\ qualityMessage (calculatePd markers) = MODERATE_QUALITY).
Proof.
  split.
  - intros markers Hfin result; subst result.
    destruct (calculatePd_finiteMarkers _ Hfin)
      as (x1 & y1 & x2 & y2 & x3 & y3 & x4 & y4 & _ & _ & ->).
    unfold Real.calculatePd;
      cbn [confidence valid issues qualityMessage].
    set (pp := Real.distance x1 y1 x2 y2).
    set (w := Real.distance x3 y3 x4 y4).
    set (t := Real.cardTiltRatio (y3 - y4) w).
    set (c := Real.confidence (pp * Real.mmPerPixel w) w t).
    set (l := Real.issues (pp * Real.mmPerPixel w) w t).
    exists c; split; [reflexivity |].
    unfold Real.qualityMessage.
    destruct (Number.Rleb 0.75 c) eqn:H1; destruct (Number.Rleb 0.5 c) eqn:H2;
      try apply Rleb_true in H1; try apply Rleb_false in H1;
      try apply Rleb_true in H2; try apply Rleb_false in H2;
      destruct l as [| i l]; cbn [List.length Nat.eqb andb];
      unfold GOOD_QUALITY, MODERATE_QUALITY, LOW_QUALITY;
      repeat split; intros; try discriminate; try lra; try tauto;
      try (intuition (discriminate || lra)).
  - exists moderateMarkers.
    rewrite calculatePd_moderateMarkers.
    split; [apply finiteMarkers_mk | repeat split].
Qed.

Lemma calculatePd_qualityMessage_witness :
  exists c : R,
    confidence (calculatePd moderateMarkers) = Finite c
    /\ (qualityMessage (calculatePd moderateMarkers) = MODERATE_QUALITY
        <-> ~ (0.75 <= c /\ issues (calculatePd moderateMarkers) = [])
            /\ 0.5 <= c).
Proof.
  destruct (proj1 calculatePd_qualityMessage moderateMarkers
              (finiteMarkers_mk _ _ _ _ _ _ _ _))
    as (c & Hc & _ & _ & Hm & _).
  exists c; split; assumption.
Defined.

(** ** Rounding to the half millimetre *)

Lemma roundHalf_Finite (r : R) :
  Spec.roundHalf (Finite r) = Finite (IZR (Zfloor (r * 2 + / 2)) / 2).
Proof. unfold Spec.roundHalf; cbn [Number.mul Math.round]; apply div_Finite; lra. Qed.

Lemma roundHalf_half_integer (z : Z) :
  Spec.roundHalf (Finite (IZR z / 2)) = Finite (IZR z / 2).
Proof.
  rewrite roundHalf_Finite.
  replace (IZR z / 2 * 2) with (IZR z) by lra.
  rewrite Zfloor_IZR_half; reflexivity.
Qed.

Lemma roundHalf_infinity :
  Spec.roundHalf PosInfinity = PosInfinity
  /\ Spec.roundHalf NegInfinity = NegInfinity.
Proof.
  assert (H1 : Number.Rltb 0 2 = true) by (apply Rltb_true; lra).
  assert (H2 : Number.Rltb 2 0 = false) by (apply Rltb_false; lra).
  unfold Spec.roundHalf, Number.mul, Number.scaleInfinity; rewrite H1.
  unfold Math.round, Number.div; rewrite H2; split; reflexivity.
Qed.

Lemma Zfloor_half_nearest (u : R) (k : Z) :
  Rabs (IZR (Zfloor (u + / 2)) - u) <= Rabs (IZR k - u).
Proof.
  pose proof (Zfloor_bound (u + / 2)) as Hz.
  set (z := Zfloor (u + / 2)) in *.
  assert (Hcases : (k <= z - 1 \/ k = z \/ z + 1 <= k)%Z) by lia.
  destruct Hcases as [Hk | [-> | Hk]].
  - apply IZR_le in Hk; rewrite minus_IZR in Hk.
    unfold Rabs; repeat destruct (Rcase_abs _); lra.
  - lra.
  - apply IZR_le in Hk; rewrite plus_IZR in Hk.
    unfold Rabs; repeat destruct (Rcase_abs _); lra.
Qed.

(** C6.  For every real [x], [round(x*2)/2] is [z/2] for an integer [z],
    no multiple of 0.5 is nearer to [x], and a tie (the doubled value is
    half-way between two integers) goes to the upper one.  The operation is
    idempotent on every number, and [pdMmRounded] of [calculatePd] is this
    operation applied to its [pdMm]. *)
Theorem roundHalf_nearest_idempotent :
  (forall x : R,
      exists z : Z,
        Spec.roundHalf (Finite x) = Finite (IZR z / 2)
        /\ (forall k : Z, Rabs (IZR z / 2 - x) <= Rabs (IZR k / 2 - x))
        /\ (forall n : Z, x * 2 = IZR n + / 2 -> z = (n + 1)%Z))
  /\ (forall a : number,
         Spec.roundHalf (Spec.roundHalf a) = Spec.roundHalf a)
  /\ (forall markers : MarkerMap,
         pdMmRounded (calculatePd markers)
         = Spec.roundHalf (pdMm (calculatePd markers))).
Proof.
  split; [| split].
  - intros r; exists (Zfloor (r * 2 + / 2)).
    split; [apply roundHalf_Finite | split].
    + intros k.
      pose proof (Zfloor_half_nearest (r * 2) k) as H.
      replace (IZR (Zfloor (r * 2 + / 2)) / 2 - r)
        with ((IZR (Zfloor (r * 2 + / 2)) - r * 2) * / 2) by lra.
      replace (IZR k / 2 - r) with ((IZR k - r * 2) * / 2) by lra.
      rewrite !Rabs_mult, (Rabs_pos_eq (/ 2)) by lra.
      lra.
    + intros n Hn; apply Zfloor_eq; rewrite Hn, plus_IZR; lra.
  - destruct roundHalf_infinity as [Hpos Hneg].
    intros [r | | |].
    + rewrite roundHalf_Finite; apply roundHalf_half_integer.
    + rewrite !Hpos; reflexivity.
    + rewrite !Hneg; reflexivity.
    + reflexivity.
  - reflexivity.
Qed.

Lemma roundHalf_nearest_idempotent_witness :
  Spec.roundHalf (Finite 0.25) = Finite (IZR 1 / 2).
Proof.
  destruct (proj1 roundHalf_nearest_idempotent 0.25) as (z & Hz & _ & Htie).
  rewrite Hz, (Htie 0%Z); [reflexivity | lra].
Defined.

(** ** Hit-testing *)

Lemma keyIndex_Object_keys (candidates : MarkerMap) (key : MarkerKey) :
  nth_error (Object_keys candidates) (keyIndex key) = Some key.
Proof. destruct key; reflexivity. Qed.

(** The loop of [nearestMarker] over four finite distances. *)
Lemma nearestMarker_Finite (point : Point) (candidates : MarkerMap)
      (d : MarkerKey -> R) :
  (forall key, distance point (candidates key) = Finite (d key)) ->
  forall key,
    nearestMarker point candidates = Some key
    <-> d key < 26
        /\ (forall k, d key <= d k)
        /\ (forall k, (keyIndex k < keyIndex key)%nat -> d key < d k).
Proof.
  intros Hd key.
  unfold nearestMarker, Object_keys; cbn [fold_left]; cbv beta iota.
  rewrite (Hd leftPupil).
  change (Finite (d leftPupil) <? Number.POSITIVE_INFINITY)%js with true.
  cbv beta iota.
  js_run_loop Hd.
  all: split.
  all: try (intros Hk; discriminate Hk).
  all: try (intros Hk; injection Hk as <-;
            split; [lra | split; intros k; destruct k; cbn [keyIndex];
                          intros; lra || lia]).
  all: intros (H26 & Hmin & Hfirst);
    pose proof (Hmin leftPupil); pose proof (Hmin rightPupil);
    pose proof (Hmin leftCard); pose proof (Hmin rightCard);
    pose proof (Hfirst leftPupil) as F1; pose proof (Hfirst rightPupil) as F2;
    pose proof (Hfirst leftCard) as F3;
    destruct key; cbn [keyIndex] in *;
    try reflexivity; exfalso;
    try (assert (0 < 1)%nat as L by lia; specialize (F1 L); clear L);
    try (assert (0 < 2)%nat as L by lia; specialize (F1 L); clear L);
    try (assert (0 < 3)%nat as L by lia; specialize (F1 L); clear L);
    try (assert (1 < 2)%nat as L by lia; specialize (F2 L); clear L);
    try (assert (1 < 3)%nat as L by lia; specialize (F2 L); clear L);
    try (assert (2 < 3)%nat as L by lia; specialize (F3 L); clear L);
    lra.
Qed.

Lemma nearestMarker_None_Finite (point : Point) (candidates : MarkerMap)
      (d : MarkerKey -> R) :
  (forall key, distance point (candidates key) = Finite (d key)) ->
  nearestMarker point candidates = None <-> (forall k, 26 <= d k).
Proof.
  intros Hd.
  unfold nearestMarker, Object_keys; cbn [fold_left]; cbv beta iota.
  rewrite (Hd leftPupil).
  change (Finite (d leftPupil) <? Number.POSITIVE_INFINITY)%js with true.
  cbv beta iota.
  js_run_loop Hd.
  all: split.
  all: try (intros Hk; discriminate Hk).
  all: try (intros _ k; destruct k; lra).
  all: intros Hall;
    pose proof (Hall leftPupil); pose proof (Hall rightPupil);
    pose proof (Hall leftCard); pose proof (Hall rightCard);
    try reflexivity; exfalso; lra.
Qed.

Lemma distance_finitePoint (a b : Point) :
  finitePoint a -> finitePoint b -> distance a b = Finite (toR (distance a b)).
Proof.
  intros Ha Hb.
  destruct (finitePoint_inv _ Ha) as (x1 & y1 & ->).
  destruct (finitePoint_inv _ Hb) as (x2 & y2 & ->).
  reflexivity.
Qed.

(** C5.  For a pointer point and markers with finite coordinates,
    [nearestMarker] returns a key exactly when that marker is less than 26
    image pixels away, no marker is nearer, and every marker earlier in the
    enumeration order (leftPupil, rightPupil, leftCard, rightCard) is
    strictly farther; it returns no key exactly when no marker is less than
    26 pixels away.  So of two equidistant markers the later one is never
    chosen, and [handlePointerDown] leaves the active marker unchanged when
    no marker is within the radius. *)
Theorem nearestMarker_spec (point : Point) (candidates : MarkerMap) :
  finitePoint point ->
  finiteMarkers candidates ->
  let dist := fun key => distance point (candidates key) in
  (forall key,
      nearestMarker point candidates = Some key
      <-> (dist key <? 26)%js = true
          /\ (forall k, (dist key <=? dist k)%js = true)
          /\ (forall k, (keyIndex k < keyIndex key)%nat ->
                        (dist key <? dist k)%js = true))
  /\ (nearestMarker point candidates = None
      <-> forall k, (dist k <? 26)%js = false)
  /\ (forall k1 k2,
         (keyIndex k1 < keyIndex k2)%nat -> dist k1 = dist k2 ->
         nearestMarker point candidates <> Some k2)
  /\ (forall scale photo activeMarker event,
         getImagePointFromEvent scale photo event = point ->
         nearestMarker point candidates = None ->
         handlePointerDown scale photo candidates activeMarker event
         = activeMarker).
Proof.
  intros Hp Hm dist.
  set (d := fun key => toR (dist key)).
  assert (Hd : forall key, dist key = Finite (d key)).
  { intros key; apply distance_finitePoint; [assumption | apply Hm]. }
  pose proof (nearestMarker_Finite _ _ _ Hd) as HS.
  pose proof (nearestMarker_None_Finite _ _ _ Hd) as HN.
  assert (Hlt : forall a b, (Finite a <? Finite b)%js = true <-> a < b)
    by (intros; apply Rltb_true).
  assert (Hle : forall a b, (Finite a <=? Finite b)%js = true <-> a <= b)
    by (intros; apply Rleb_true).
  split; [| split; [| split]].
  - intros key; rewrite HS, (Hd key), Hlt.
    split; intros (A & B & C); (split; [exact A | split]); intros k.
    + rewrite (Hd k); apply Hle, B.
    + intros L; rewrite (Hd k); apply Hlt, C, L.
    + apply Hle; rewrite <- (Hd k); apply B.
    + intros L; apply Hlt; rewrite <- (Hd k); apply C, L.
  - rewrite HN; split; intros A k; specialize (A k).
    + rewrite (Hd k); apply Rltb_false, A.
    + rewrite (Hd k) in A; apply Rltb_false in A; exact A.
  - intros k1 k2 L E Hsel.
    apply HS in Hsel; destruct Hsel as (_ & _ & C).
    specialize (C k1 L).
    rewrite (Hd k1), (Hd k2) in E; injection E as E; lra.
  - intros scale photo activeMarker event Hpt Hnone.
    unfold handlePointerDown; rewrite Hpt, Hnone; reflexivity.
Qed.

Lemma Real_distance_abs_x (x1 x2 y1 : R) :
  Real.distance x1 y1 x2 y1 = Rabs (x1 - x2).
Proof.
  unfold Real.distance.
  replace ((x1 - x2) * (x1 - x2) + (y1 - y1) * (y1 - y1))
    with (Rsqr (x1 - x2)) by (unfold Rsqr; ring).
  apply sqrt_Rsqr_abs.
Qed.

Lemma Real_distance_abs_y (x1 y1 y2 : R) :
  Real.distance x1 y1 x1 y2 = Rabs (y1 - y2).
Proof.
  unfold Real.distance.
  replace ((x1 - x1) * (x1 - x1) + (y1 - y2) * (y1 - y2))
    with (Rsqr (y1 - y2)) by (unfold Rsqr; ring).
  apply sqrt_Rsqr_abs.
Qed.

Lemma tie_distances :
  distance tiePoint (tieMarkers leftPupil) = Finite 10
  /\ distance tiePoint (tieMarkers rightPupil) = Finite 10
  /\ distance tiePoint (tieMarkers leftCard) = Finite 100
  /\ distance tiePoint (tieMarkers rightCard) = Finite 200.
Proof.
  unfold tiePoint, tieMarkers, mkMarkerMap; rewrite !distance_Finite.
  rewrite !Real_distance_abs_x, !Real_distance_abs_y.
  repeat split; f_equal; unfold Rabs; destruct (Rcase_abs _); lra.
Qed.

Lemma nearestMarker_spec_witness :
  nearestMarker tiePoint tieMarkers = Some leftPupil
  /\ distance tiePoint (tieMarkers leftPupil)
     = distance tiePoint (tieMarkers rightPupil).
Proof.
  destruct tie_distances as (D1 & D2 & D3 & D4).
  split; [| rewrite D1, D2; reflexivity].
  apply (proj1 (nearestMarker_spec tiePoint tieMarkers
                  (finitePoint_mk _ _) (finiteMarkers_mk _ _ _ _ _ _ _ _))).
  rewrite D1; split; [apply Rltb_true; lra | split].
  - intros []; rewrite ?D1, ?D2, ?D3, ?D4; apply Rleb_true; lra.
  - intros [] L; cbn [keyIndex] in L; lia.
Defined.

(** ** Auto-suggest merge *)

Lemma MarkerKey_eqb_eq (a b : MarkerKey) : MarkerKey_eqb a b = true <-> a = b.
Proof. destruct a, b; simpl; split; intros H; congruence. Qed.

Lemma MarkerKey_eqb_refl (a : MarkerKey) : MarkerKey_eqb a a = true.
Proof. destruct a; reflexivity. Qed.

Lemma MarkerKey_eqb_neq (a b : MarkerKey) : MarkerKey_eqb a b = false <-> a <> b.
Proof. destruct a, b; simpl; split; intros H; congruence. Qed.

Lemma getSuggestion_Some_key (s : Suggestions) (key : MarkerKey) (p : Point) :
  getSuggestion s key = Some p -> In key (suggestionKeys s).
Proof.
  induction s as [| [k v] rest IH]; simpl; [discriminate |].
  destruct (MarkerKey_eqb k key) eqn:E.
  - apply MarkerKey_eqb_eq in E; auto.
  - auto.
Qed.

(** On an object (no key bound twice), [suggestions[key]] is the value the
    key is bound to. *)
Lemma getSuggestion_In (s : Suggestions) (key : MarkerKey) (p : Point) :
  NoDup (suggestionKeys s) ->
  getSuggestion s key = Some p <-> In (key, Some p) s.
Proof.
  induction s as [| [k v] rest IH]; simpl; intros Hnd.
  - split; [discriminate | contradiction].
  - inversion Hnd as [| ? ? Hnotin Hnd']; subst.
    destruct (MarkerKey_eqb k key) eqn:E.
    + apply MarkerKey_eqb_eq in E; subst k; split.
      * intros ->; left; reflexivity.
      * intros [H | H]; [congruence |].
        exfalso; apply Hnotin.
        change key with (fst (key, Some p)); apply in_map, H.
    + apply MarkerKey_eqb_neq in E; rewrite (IH Hnd'); split.
      * auto.
      * intros [H | H]; [congruence | assumption].
Qed.

(** The loop of the merge, for any list of keys. *)
Lemma merge_loop (s : Suggestions) (keys : list MarkerKey) (next : MarkerMap)
      (key : MarkerKey) :
  fold_left
    (fun next key =>
       match getSuggestion s key with
       | Some suggestion => setMarker next key suggestion
       | None => next
       end) keys next key
  = match getSuggestion s key with
    | Some suggestion =>
        if existsb (MarkerKey_eqb key) keys then suggestion else next key
    | None => next key
    end.
Proof.
  revert next; induction keys as [| k keys IH]; intros next; simpl.
  - destruct (getSuggestion s key); reflexivity.
  - rewrite IH.
    destruct (MarkerKey_eqb key k) eqn:E.
    + apply MarkerKey_eqb_eq in E; subst k.
      destruct (getSuggestion s key) as [p |]; [| reflexivity].
      simpl. unfold setMarker; rewrite MarkerKey_eqb_refl.
      destruct (existsb _ keys); reflexivity.
    + simpl.
      destruct (getSuggestion s key) as [p |];
        destruct (getSuggestion s k) as [q |];
        unfold setMarker; rewrite ?E; reflexivity.
Qed.

(** C3.  For every marker map [m] and every partial suggestion object [s],
    the merge returns a marker map whose value at each key is the value
    [s[key]] when [s] supplies one, and [m]'s value when it does not. *)
Theorem mergeSuggestions_per_key (m : MarkerMap) (s : Suggestions) :
  exists next : MarkerMap,
    mergeSuggestions s (Some m) = Some next
    /\ forall key : MarkerKey,
        next key = match getSuggestion s key with
                   | Some suggestion => suggestion
                   | None => m key
                   end.
Proof.
  unfold mergeSuggestions; cbv zeta.
  eexists; split; [reflexivity |].
  intros key; rewrite merge_loop.
  destruct (getSuggestion s key) as [p |] eqn:E; [| reflexivity].
  apply getSuggestion_Some_key in E.
  destruct (existsb (MarkerKey_eqb key) (suggestionKeys s)) eqn:X;
    [reflexivity |].
  exfalso.
  assert (Hex : existsb (MarkerKey_eqb key) (suggestionKeys s) = true).
  { apply existsb_exists; exists key; split;
      [assumption | apply MarkerKey_eqb_refl]. }
  congruence.
Qed.

(** ** Coordinate mapping *)

Lemma Rmax_floor_neq_0 (s : R) : Rmax s 0.0001 <> 0.
Proof. pose proof (Rmax_r s 0.0001); lra. Qed.

Lemma imageCoordinate_Finite (client origin s size : R) :
  clamp ((Finite client - Finite origin) / Math.max (Finite s) 0.0001)%js
        0 (Finite size)
  = Finite (Real.clamp ((client - origin) / Rmax s 0.0001) 0 size).
Proof.
  change (Finite client - Finite origin)%js with (Finite (client - origin)).
  change (Math.max (Finite s) 0.0001) with (Finite (Rmax s 0.0001)).
  rewrite div_Finite by apply Rmax_floor_neq_0.
  apply clamp_Finite.
Qed.

Lemma getImagePointFromEvent_Finite
      (sx sy W H cx cy rl rt : R) (url taken : string) :
  getImagePointFromEvent (mkPoint sx sy) (mkPhoto url W H taken)
                         (mkEvent cx cy (mkRect rl rt))
  = mkPoint (Real.clamp ((cx - rl) / Rmax sx 0.0001) 0 W)
            (Real.clamp ((cy - rt) / Rmax sy 0.0001) 0 H).
Proof.
  unfold getImagePointFromEvent;
    cbn [currentTarget clientX clientY left top x y width height].
  rewrite !imageCoordinate_Finite; reflexivity.
Qed.

Lemma roundtrip_coordinate (v s origin size : R) :
  0.0001 <= s -> 0 <= v <= size ->
  Real.clamp ((v * s + origin - origin) / Rmax s 0.0001) 0 size = v.
Proof.
  intros Hs Hv.
  rewrite Rmax_left by lra.
  apply Real_clamp_id_eq; [| field; lra].
  replace ((v * s + origin - origin) / s) with v by (field; lra).
  exact Hv.
Qed.

(** C4 as the code has it.  For every point [p] within the image bounds and
    all scale factors [sx, sy >= 0.0001], the point under a pointer placed
    at [toCanvas p] is [p] itself; and for all scale factors [sx, sy > 0],
    every image of non-negative width and height and every pointer
    position, on the rendered surface or not, the point returned by
    [getImagePointFromEvent] lies within [[0, width] x [0, height]]. *)
Theorem getImagePointFromEvent_roundtrip_bounds
        (sx sy W H rl rt : R) (url taken : string) :
  let scale := mkPoint sx sy in
  let photo := mkPhoto url W H taken in
  (forall px py : R,
      0.0001 <= sx -> 0.0001 <= sy ->
      0 <= px <= W -> 0 <= py <= H ->
      let p := mkPoint px py in
      let event :=
        mkEvent (x (toCanvas scale p) + rl)%js (y (toCanvas scale p) + rt)%js
                (mkRect rl rt) in
      getImagePointFromEvent scale photo event = p)
  /\ (forall cx cy : R,
         0 < sx -> 0 < sy -> 0 <= W -> 0 <= H ->
         exists ix iy : R,
           getImagePointFromEvent scale photo (mkEvent cx cy (mkRect rl rt))
           = mkPoint ix iy
           /\ 0 <= ix <= W /\ 0 <= iy <= H).
Proof.
  cbv zeta; split.
  - intros px py Hsx Hsy Hpx Hpy.
    unfold toCanvas; cbn [x y].
    change (Finite px * Finite sx + Finite rl)%js with (Finite (px * sx + rl)).
    change (Finite py * Finite sy + Finite rt)%js with (Finite (py * sy + rt)).
    rewrite getImagePointFromEvent_Finite.
    rewrite !roundtrip_coordinate by assumption.
    reflexivity.
  - intros cx cy _ _ HW HH.
    rewrite getImagePointFromEvent_Finite.
    do 2 eexists; split; [reflexivity |].
    split; apply Real_clamp_bounds; assumption.
Qed.

Lemma getImagePointFromEvent_roundtrip_bounds_witness :
  getImagePointFromEvent (mkPoint 0.5 0.5) examplePhoto
    (mkEvent (x (toCanvas (mkPoint 0.5 0.5) (mkPoint 300 200)) + 8)%js
             (y (toCanvas (mkPoint 0.5 0.5) (mkPoint 300 200)) + 16)%js
             (mkRect 8 16))
  = mkPoint 300 200.
Proof.
  unfold examplePhoto.
  apply (proj1 (getImagePointFromEvent_roundtrip_bounds
                  0.5 0.5 1000 1000 8 16 _ _)); lra.
Defined.

(** C4 as the spec states it fails below the floor of the scale: at
    [sx = 0.00005] the point (100, 100) of a 1000 x 1000 image, sent to the
    canvas and back, comes back with [x = 50]. *)
Lemma getImagePointFromEvent_roundtrip_counterexample :
  0 < 0.00005
  /\ x (getImagePointFromEvent (mkPoint 0.00005 1) examplePhoto
          (mkEvent (x (toCanvas (mkPoint 0.00005 1) (mkPoint 100 100)))
                   (y (toCanvas (mkPoint 0.00005 1) (mkPoint 100 100)))
                   (mkRect 0 0)))
     = Finite 50
  /\ Finite 50 <> x (mkPoint 100 100).
Proof.
  split; [lra | split].
  - unfold toCanvas, examplePhoto; cbn [x y].
    change (Finite 100 * Finite 0.00005)%js with (Finite (100 * 0.00005)).
    change (Finite 100 * Finite 1)%js with (Finite (100 * 1)).
    rewrite getImagePointFromEvent_Finite; cbn [x]; f_equal.
    rewrite Rmax_right by lra.
    apply Real_clamp_id_eq; lra.
  - cbn [x]; intros E; injection E as E; lra.
Qed.

(** ** Saving a reading *)

Lemma calculatePd_valid_issues (markers : MarkerMap) :
  valid (calculatePd markers) = true -> issues (calculatePd markers) = [].
Proof.
  change (valid (calculatePd markers))
    with (List.length (issues (calculatePd markers)) =? 0)%nat.
  destruct (issues (calculatePd markers)); [reflexivity | discriminate].
Qed.

(** C10.  Whenever [saveCurrentReading] saves a reading, the reading's
    [pdMm] is the measurement's [pdMmRounded]; the saved reading does not
    depend on the measurement's unrounded [pdMm], whatever its value; its
    issue list, the only other place where the source writes that value, is
    empty when the measurement is the one [App] computes from the markers;
    and the reading is the first entry of the list that [saveReading]
    stores. *)
Theorem saveCurrentReading_rounded
        (photo : option CapturedPhoto) (markers : option MarkerMap)
        (measurement : option MeasurementResult) (newId now : string)
        (reading : SavedReading.t) :
  saveCurrentReading photo markers measurement newId now = Saved reading ->
  exists m : MeasurementResult,
    measurement = Some m
    /\ SavedReading.pdMm reading = pdMmRounded m
    /\ (forall value : number,
           saveCurrentReading photo markers (Some (withPdMm value m)) newId now
           = Saved reading)
    /\ (measurement = measurementOf markers ->
        SavedReading.issues reading = [])
    /\ (forall current : list SavedReading.t,
           hd_error (saveReading reading current true) = Some reading).
Proof.
  unfold saveCurrentReading.
  destruct photo as [photo |], markers as [markers |],
    measurement as [m |]; try discriminate.
  destruct (valid m) eqn:Hvalid; cbn [negb]; [| discriminate].
  intros Hsaved; injection Hsaved as <-.
  exists m; split; [reflexivity | split; [reflexivity | split; [| split]]].
  - intros value; cbn [withPdMm valid]; rewrite Hvalid; reflexivity.
  - cbn [measurementOf SavedReading.issues]; intros Hm; injection Hm as ->.
    apply calculatePd_valid_issues, Hvalid.
  - intros current; reflexivity.
Qed.

Lemma saveCurrentReading_rounded_witness :
  exists reading : SavedReading.t,
    saveCurrentReading (Some examplePhoto) (Some moderateMarkers)
      (Some (calculatePd moderateMarkers)) "reading-1" "2024-05-01T10:01:00.000Z"
    = Saved reading
    /\ SavedReading.pdMm reading = Finite 60
    /\ pdMm (calculatePd moderateMarkers) = Finite 59.92.
Proof.
  eexists; split; [| split].
  - rewrite calculatePd_moderateMarkers; reflexivity.
  - match goal with
    | |- SavedReading.pdMm ?r = _ =>
        destruct (saveCurrentReading_rounded
                    (Some examplePhoto) (Some moderateMarkers)
                    (Some (calculatePd moderateMarkers))
                    "reading-1" "2024-05-01T10:01:00.000Z" r)
          as (m & Hm & Hpd & _)
    end.
    + rewrite calculatePd_moderateMarkers; reflexivity.
    + injection Hm as <-.
      rewrite Hpd, calculatePd_moderateMarkers; reflexivity.
  - rewrite calculatePd_moderateMarkers; reflexivity.
Defined.

(** * Further properties of the source *)

(** ** Geometry *)

Lemma Real_distance_sym (x1 y1 x2 y2 : R) :
  Real.distance x1 y1 x2 y2 = Real.distance x2 y2 x1 y1.
Proof. unfold Real.distance; f_equal; ring. Qed.

Lemma Real_distance_eq_0 (x1 y1 x2 y2 : R) :
  Real.distance x1 y1 x2 y2 = 0 -> x1 = x2 /\ y1 = y2.
Proof.
  unfold Real.distance; intros H.
  pose proof (Rle_0_sqr (x1 - x2)) as Hx; pose proof (Rle_0_sqr (y1 - y2)) as Hy.
  unfold Rsqr in Hx, Hy.
  apply sqrt_eq_0 in H; [| lra].
  assert (Hx0 : (x1 - x2) * (x1 - x2) = 0) by lra.
  assert (Hy0 : (y1 - y2) * (y1 - y2) = 0) by lra.
  apply Rmult_integral in Hx0; apply Rmult_integral in Hy0.
  split; lra.
Qed.

Lemma sub_neg_cases (a b : number) :
  (exists r : R, (a - b)%js = Finite r /\ (b - a)%js = Finite (- r))
  \/ ((a - b)%js = NaN /\ (b - a)%js = NaN)
  \/ ((a - b)%js = PosInfinity /\ (b - a)%js = NegInfinity)
  \/ ((a - b)%js = NegInfinity /\ (b - a)%js = PosInfinity).
Proof.
  destruct a as [r | | |], b as [s | | |]; cbn; auto 6.
  left; exists (r - s); split; f_equal; ring.
Qed.

(** [distance] is symmetric on all points, whatever their coordinates, and
    on points with finite coordinates it is 0 exactly between a point and
    itself. *)
Theorem distance_symmetric_zero (a b : Point) :
  distance a b = distance b a
  /\ (finitePoint a -> finitePoint b ->
      distance a a = Finite 0 /\ (distance a b = Finite 0 <-> a = b)).
Proof.
  split.
  - unfold distance.
    destruct (sub_neg_cases (x a) (x b))
      as [(r & -> & ->) | [[-> ->] | [[-> ->] | [-> ->]]]];
      destruct (sub_neg_cases (y a) (y b))
        as [(s & -> & ->) | [[-> ->] | [[-> ->] | [-> ->]]]];
      cbn; try reflexivity.
    f_equal; f_equal; ring.
  - intros Ha Hb.
    destruct (finitePoint_inv _ Ha) as (x1 & y1 & ->).
    destruct (finitePoint_inv _ Hb) as (x2 & y2 & ->).
    rewrite !distance_Finite, Real_distance_same.
    split; [reflexivity | split].
    + intros H; injection H as H.
      apply Real_distance_eq_0 in H; destruct H as [-> ->]; reflexivity.
    + intros H; injection H as -> ->.
      rewrite Real_distance_same; reflexivity.
Qed.

Lemma distance_symmetric_zero_witness :
  distance (mkPoint 3 4) (mkPoint 3 4) = Finite 0.
Proof.
  exact (proj1 (proj2 (distance_symmetric_zero (mkPoint 3 4) (mkPoint 3 4))
                  (finitePoint_mk _ _) (finitePoint_mk _ _))).
Defined.

(** [clamp] with finite bounds [lo <= hi]: the result is [NaN] only for a
    [NaN] value; any other value, infinite ones included, is brought to a
    real of [[lo, hi]]; and a value already in the interval is returned
    unchanged. *)
Theorem clamp_range (value : number) (lo hi : R) :
  lo <= hi ->
  (clamp value lo hi = NaN <-> value = NaN)
  /\ (value <> NaN ->
      exists r : R, clamp value lo hi = Finite r /\ lo <= r <= hi)
  /\ (forall r : R, value = Finite r -> lo <= r <= hi ->
                    clamp value lo hi = value).
Proof.
  intros Hle.
  assert (Hinf : clamp PosInfinity lo hi = Finite hi) by reflexivity.
  assert (Hneg : clamp NegInfinity lo hi = Finite (Rmin hi lo)) by reflexivity.
  split; [| split].
  - destruct value; split; intros H; try discriminate; reflexivity.
  - intros Hnan; destruct value as [r | | |].
    + exists (Real.clamp r lo hi); split;
        [reflexivity | apply Real_clamp_bounds, Hle].
    + exists hi; split; [assumption | lra].
    + exists (Rmin hi lo); split; [assumption |].
      unfold Rmin; destruct (Rle_dec hi lo); lra.
    + contradiction.
  - intros r -> Hr; rewrite clamp_Finite, Real_clamp_id by assumption.
    reflexivity.
Qed.

Lemma clamp_range_witness :
  exists r : R, clamp PosInfinity 0 1 = Finite r /\ 0 <= r <= 1.
Proof.
  apply (proj1 (proj2 (clamp_range PosInfinity 0 1 ltac:(lra)))).
  discriminate.
Defined.

Lemma inImage_finite (W H : R) (p : Point) : inImage W H p -> finitePoint p.
Proof. intros (px & py & -> & _); apply finitePoint_mk. Qed.

(** The running sum of [averagePoints] over points of the rectangle. *)
Lemma averagePoints_sum (W H : R) (points : list Point) (ax ay : R) :
  Forall (inImage W H) points ->
  exists sx sy : R,
    fold_left
      (fun acc point => {| x := x acc + x point; y := y acc + y point |}%js)
      points (mkPoint ax ay)
    = mkPoint sx sy
    /\ ax <= sx <= ax + INR (List.length points) * W
    /\ ay <= sy <= ay + INR (List.length points) * H.
Proof.
  intros Hall; revert ax ay.
  induction Hall as [| p rest (px & py & -> & Hpx & Hpy) _ IH]; intros ax ay.
  - exists ax, ay; cbn [fold_left List.length INR]; repeat split; lra.
  - cbn [fold_left x y].
    change (Finite ax + Finite px)%js with (Finite (ax + px)).
    change (Finite ay + Finite py)%js with (Finite (ay + py)).
    destruct (IH (ax + px) (ay + py)) as (sx & sy & -> & Hsx & Hsy).
    exists sx, sy; split; [reflexivity |].
    change (List.length (mkPoint px py :: rest)) with (S (List.length rest)).
    rewrite S_INR; split; nra.
Qed.

Lemma mean_bounds (s n bound : R) :
  0 < n -> 0 <= s <= 0 + n * bound -> 0 <= s / n <= bound.
Proof.
  intros Hn Hs.
  assert (Hi : 0 < / n) by (apply Rinv_0_lt_compat, Hn).
  unfold Rdiv; split.
  - apply Rmult_le_pos; lra.
  - replace bound with (n * bound * / n) by (field; lra).
    apply Rmult_le_compat_r; lra.
Qed.

Lemma averagePoints_None (points : list Point) :
  averagePoints points = None <-> points = [].
Proof. destruct points; split; intros E; try discriminate; reflexivity. Qed.

Lemma averagePoints_hull (W H : R) (points : list Point) :
  points <> [] -> Forall (inImage W H) points ->
  exists p : Point, averagePoints points = Some p /\ inImage W H p.
Proof.
  intros Hne Hall.
  destruct points as [| p0 rest]; [contradiction |].
  unfold averagePoints; cbv zeta.
  destruct (averagePoints_sum W H (p0 :: rest) 0 0 Hall)
    as (sx & sy & -> & Hsx & Hsy).
  cbn [x y].
  assert (Hn : 0 < INR (List.length (p0 :: rest)))
    by (apply lt_0_INR; cbn; lia).
  rewrite !div_Finite by lra.
  eexists; split; [reflexivity |].
  exists (sx / INR (List.length (p0 :: rest))),
         (sy / INR (List.length (p0 :: rest))).
  split; [reflexivity | split; apply mean_bounds; assumption].
Qed.

(** ** The default layout *)

Lemma createDefaultMarkers_Finite (W H : R) :
  createDefaultMarkers W H
  = mkMarkerMap
      (mkPoint (W * 0.4)%R (H * 0.48)%R) (mkPoint (W * 0.6)%R (H * 0.48)%R)
      (mkPoint (W * 0.3)%R (H * 0.2)%R) (mkPoint (W * 0.7)%R (H * 0.2)%R).
Proof. reflexivity. Qed.

Lemma createDefaultMarkers_in_image_aux (W H : R) :
  0 <= W -> 0 <= H ->
  forall key, inImage W H (createDefaultMarkers W H key).
Proof.
  intros HW HH key; rewrite createDefaultMarkers_Finite.
  destruct key; cbn [mkMarkerMap]; eexists; eexists;
    (split; [reflexivity | lra]).
Qed.

(** The default markers of an image of non-negative width and height all
    lie within the image. *)
Theorem createDefaultMarkers_in_image (W H : R) :
  0 <= W -> 0 <= H ->
  forall key, inImage W H (createDefaultMarkers W H key).
Proof. apply createDefaultMarkers_in_image_aux. Qed.

Lemma createDefaultMarkers_in_image_witness :
  inImage 1280 720 (createDefaultMarkers 1280 720 leftPupil).
Proof.
  apply (createDefaultMarkers_in_image 1280 720); lra.
Defined.

Lemma default_issues (W : R) :
  Real.issues 42.8 (W * 0.4) 0
  = (if Number.Rltb W 225 then [CardTooClose] else [])
    ++ [PdOutOfRange (Finite 42.8)].
Proof.
  unfold Real.issues.
  assert (H2 : Real.outOfRange 42.8 = true)
    by (apply Real_outOfRange_true; lra).
  assert (H3 : Number.Rltb 0.2 0 = false) by (apply Rltb_false; lra).
  rewrite H2, H3.
  destruct (Number.Rltb W 225) eqn:HW;
    [apply Rltb_true in HW | apply Rltb_false in HW].
  - assert (H1 : Number.Rltb (W * 0.4) 90 = true) by (apply Rltb_true; lra).
    rewrite H1; reflexivity.
  - assert (H1 : Number.Rltb (W * 0.4) 90 = false) by (apply Rltb_false; lra).
    rewrite H1; reflexivity.
Qed.

Lemma calculatePd_createDefaultMarkers (W H : R) :
  0 < W ->
  calculatePd (createDefaultMarkers W H)
  = mkMeasurement (W * 0.2)%R (W * 0.4)%R (85.6 / (W * 0.4))%R 42.8 43
      (Real.confidence 42.8 (W * 0.4) 0)
      (Real.qualityMessage (Real.confidence 42.8 (W * 0.4) 0)
         (Real.issues 42.8 (W * 0.4) 0))
      (Real.issues 42.8 (W * 0.4) 0)
      (List.length (Real.issues 42.8 (W * 0.4) 0) =? 0)%nat.
Proof.
  intros HW.
  rewrite createDefaultMarkers_Finite, calculatePd_mk.
  unfold Real.calculatePd.
  rewrite !Real_distance_horizontal by lra.
  rewrite Real_cardTiltRatio_level'.
  rewrite Real_mmPerPixel_pos by lra.
  replace (W * 0.6 - W * 0.4) with (W * 0.2) by lra.
  replace (W * 0.7 - W * 0.3) with (W * 0.4) by lra.
  assert (Hpd : W * 0.2 * (85.6 / (W * 0.4)) = 42.8).
  { set (a := 85.6 / (W * 0.4)).
    assert (Ha : a * (W * 0.4) = 85.6)
      by (unfold a, Rdiv; rewrite Rmult_assoc, Rinv_l by lra; lra).
    lra. }
  rewrite Hpd.
  assert (Hfloor : Zfloor (42.8 * 2 + / 2) = 86%Z) by (apply Zfloor_eq; lra).
  rewrite Hfloor.
  replace (IZR 86 / 2) with 43 by lra.
  reflexivity.
Qed.

(** Whatever the size of the image (of positive width), the default layout
    measures a card 0.4 W wide, pupils 0.2 W apart and so a PD of exactly
    42.8 mm, below the minimum of 45.  Its issues are the out-of-range one,
    preceded by the card-too-close one when the image is narrower than
    225 px; it is never valid, and [saveCurrentReading] refuses it with the
    saving error. *)
Theorem createDefaultMarkers_measurement
        (W H : R) (photo : CapturedPhoto) (newId now : string) :
  0 < W ->
  let markers := createDefaultMarkers W H in
  let result := calculatePd markers in
  cardPixelWidth result = Finite (W * 0.4)
  /\ pupilPixelDistance result = Finite (W * 0.2)
  /\ pdMm result = Finite 42.8
  /\ pdMmRounded result = Finite 43
  /\ (225 <= W -> issues result = [PdOutOfRange (Finite 42.8)])
  /\ (W < 225 -> issues result = [CardTooClose; PdOutOfRange (Finite 42.8)])
  /\ valid result = false
  /\ saveCurrentReading (Some photo) (Some markers)
       (measurementOf (Some markers)) newId now
     = SavingError "Fix highlighted issues before saving this measurement.".
Proof.
  intros HW; cbv zeta.
  assert (Hvalid : valid (calculatePd (createDefaultMarkers W H)) = false).
  { rewrite calculatePd_createDefaultMarkers by assumption; cbn [valid].
    rewrite default_issues; destruct (Number.Rltb W 225); reflexivity. }
  split; [| split; [| split; [| split; [| split; [| split; [| split]]]]]];
    try (rewrite calculatePd_createDefaultMarkers by assumption; reflexivity).
  - intros H225; rewrite calculatePd_createDefaultMarkers by assumption.
    cbn [issues]; rewrite default_issues.
    apply Rltb_false in H225; rewrite H225; reflexivity.
  - intros H225; rewrite calculatePd_createDefaultMarkers by assumption.
    cbn [issues]; rewrite default_issues.
    apply Rltb_true in H225; rewrite H225; reflexivity.
  - exact Hvalid.
  - unfold saveCurrentReading, measurementOf; rewrite Hvalid; reflexivity.
Qed.

Lemma createDefaultMarkers_measurement_witness :
  pdMm (calculatePd (createDefaultMarkers 1280 720)) = Finite 42.8
  /\ valid (calculatePd (createDefaultMarkers 1280 720)) = false.
Proof.
  pose proof (createDefaultMarkers_measurement 1280 720 examplePhoto
                "id" "now" ltac:(lra)) as H.
  cbv zeta in H; tauto.
Defined.

(** ** More on the measurement *)




Lemma Real_cardTiltRatio_sym (y3 y4 w : R) :
  Real.cardTiltRatio (y3 - y4) w = Real.cardTiltRatio (y4 - y3) w.
Proof. unfold Real.cardTiltRatio; rewrite Rabs_minus_sym; reflexivity. Qed.

(** Exchanging the two pupil markers and the two card markers does not
    change any field of the result: which end of a pair is called left is
    irrelevant to the measurement. *)
Theorem calculatePd_swapSides (markers : MarkerMap) :
  finiteMarkers markers ->
  calculatePd (swapSides markers) = calculatePd markers.
Proof.
  intros Hfin.
  destruct (finiteMarkers_inv _ Hfin)
    as (x1 & y1 & x2 & y2 & x3 & y3 & x4 & y4 & H1 & H2 & H3 & H4).
  rewrite (calculatePd_Finite _ _ _ _ _ _ _ _ _ H1 H2 H3 H4).
  unfold swapSides; rewrite H1, H2, H3, H4, calculatePd_mk.
  unfold Real.calculatePd.
  rewrite (Real_distance_sym x2 y2 x1 y1), (Real_distance_sym x4 y4 x3 y3).
  rewrite (Real_cardTiltRatio_sym y4 y3).
  reflexivity.
Qed.

Lemma calculatePd_swapSides_witness :
  calculatePd (swapSides scenarioMarkers) = calculatePd scenarioMarkers.
Proof.
  apply calculatePd_swapSides, finiteMarkers_mk.
Defined.

(** ** More on saving *)

(** [saveReading] keeps the history bounded and ordered: when the write
    succeeds the new list is the reading followed by the first 24 stored
    readings, so it has at most 25 entries and drops only the oldest ones;
    when the write fails the stored list is returned unchanged. *)
Theorem saveReading_history
        (reading : SavedReading.t) (current : list SavedReading.t) :
  saveReading reading current true = reading :: firstn 24 current
  /\ List.length (saveReading reading current true)
     = Nat.min 25 (S (List.length current))
  /\ (List.length (saveReading reading current true) <= 25)%nat
  /\ saveReading reading current false = current.
Proof.
  unfold saveReading; cbv zeta.
  change (firstn 25 (reading :: current)) with (reading :: firstn 24 current).
  repeat split.
  - cbn [List.length]; rewrite length_firstn; lia.
  - cbn [List.length]; rewrite length_firstn; lia.
Qed.

(** ** Dragging a marker *)

Lemma getImagePointFromEvent_in_image
      (sx sy W H cx cy rl rt : R) (url taken : string) :
  0 <= W -> 0 <= H ->
  inImage W H
    (getImagePointFromEvent (mkPoint sx sy) (mkPhoto url W H taken)
                            (mkEvent cx cy (mkRect rl rt))).
Proof.
  intros HW HH; rewrite getImagePointFromEvent_Finite.
  do 2 eexists; split; [reflexivity |].
  split; apply Real_clamp_bounds; assumption.
Qed.

Lemma setMarker_same (next : MarkerMap) (key : MarkerKey) (value : Point) :
  setMarker next key value key = value.
Proof. unfold setMarker; rewrite MarkerKey_eqb_refl; reflexivity. Qed.

Lemma setMarker_other (next : MarkerMap) (key k : MarkerKey) (value : Point) :
  k <> key -> setMarker next key value k = next k.
Proof.
  intros Hne; unfold setMarker.
  apply MarkerKey_eqb_neq in Hne; rewrite Hne; reflexivity.
Qed.

(** A pointer move never takes a marker out of the photo: without an active
    marker nothing is reported; with one, the reported markers have the
    active marker at the clamped image point under the pointer and the
    three others untouched, and if the markers were all within the image
    (of non-negative size) they still are, wherever the pointer is and
    whatever the finite scale. *)
Theorem handlePointerMove_in_image
        (sx sy W H cx cy rl rt : R) (url taken : string)
        (markers : MarkerMap) (activeMarker : option MarkerKey) :
  0 <= W -> 0 <= H ->
  (forall k, inImage W H (markers k)) ->
  let scale := mkPoint sx sy in
  let photo := mkPhoto url W H taken in
  let event := mkEvent cx cy (mkRect rl rt) in
  match handlePointerMove scale photo markers activeMarker event with
  | None => activeMarker = None
  | Some next =>
      exists key,
        activeMarker = Some key
        /\ next key = getImagePointFromEvent scale photo event
        /\ (forall k, k <> key -> next k = markers k)
        /\ (forall k, inImage W H (next k))
  end.
Proof.
  intros HW HH Hin; cbv zeta.
  destruct activeMarker as [key |]; cbn [handlePointerMove]; [| reflexivity].
  exists key; split; [reflexivity | split; [apply setMarker_same | split]].
  - intros k Hk; apply setMarker_other, Hk.
  - intros k; unfold setMarker.
    destruct (MarkerKey_eqb k key); [| apply Hin].
    apply getImagePointFromEvent_in_image; assumption.
Qed.

Lemma handlePointerMove_in_image_witness :
  exists next,
    handlePointerMove (mkPoint 0.5 0.5) examplePhoto
      (createDefaultMarkers 1000 1000) (Some leftCard)
      (mkEvent 5000 (-20) (mkRect 0 0)) = Some next
    /\ forall k, inImage 1000 1000 (next k).
Proof.
  pose proof (handlePointerMove_in_image 0.5 0.5 1000 1000 5000 (-20) 0 0
                "data:image/png;base64,AAAA" "2024-05-01T10:00:00.000Z"
                (createDefaultMarkers 1000 1000) (Some leftCard)
                ltac:(lra) ltac:(lra)
                (createDefaultMarkers_in_image_aux 1000 1000 ltac:(lra) ltac:(lra)))
    as H.
  cbv zeta in H; cbn [handlePointerMove] in H.
  destruct H as (key & _ & _ & _ & Hall).
  eexists; split; [reflexivity | exact Hall].
Defined.

(** Pressing exactly on a marker picks a marker at that very position: for
    scale factors of at least 0.0001 and markers within the image, a
    pointer-down at the canvas position of a marker selects a marker with
    the same image position, never one later in the key order than the
    marker pressed; the pointer-up that follows clears the selection. *)
Theorem handlePointerDown_on_marker
        (sx sy W H rl rt : R) (url taken : string)
        (markers : MarkerMap) (activeMarker : option MarkerKey)
        (key : MarkerKey) :
  0.0001 <= sx -> 0.0001 <= sy ->
  (forall k, inImage W H (markers k)) ->
  let scale := mkPoint sx sy in
  let photo := mkPhoto url W H taken in
  let event :=
    mkEvent (x (toCanvas scale (markers key)) + rl)%js
            (y (toCanvas scale (markers key)) + rt)%js (mkRect rl rt) in
  exists picked,
    handlePointerDown scale photo markers activeMarker event = Some picked
    /\ markers picked = markers key
    /\ (keyIndex picked <= keyIndex key)%nat
    /\ handlePointerUp (Some picked) = None.
Proof.
  intros Hsx Hsy Hin; cbv zeta.
  destruct (Hin key) as (px & py & Hkey & Hpx & Hpy).
  assert (Hpoint :
    getImagePointFromEvent (mkPoint sx sy) (mkPhoto url W H taken)
      (mkEvent (x (toCanvas (mkPoint sx sy) (markers key)) + rl)%js
               (y (toCanvas (mkPoint sx sy) (markers key)) + rt)%js
               (mkRect rl rt))
    = markers key).
  { rewrite Hkey; unfold toCanvas; cbn [x y].
    change (Finite px * Finite sx + Finite rl)%js with (Finite (px * sx + rl)).
    change (Finite py * Finite sy + Finite rt)%js with (Finite (py * sy + rt)).
    rewrite getImagePointFromEvent_Finite.
    rewrite !roundtrip_coordinate by assumption; reflexivity. }
  unfold handlePointerDown; rewrite Hpoint.
  set (d := fun k => toR (distance (markers key) (markers k))).
  assert (Hd : forall k, distance (markers key) (markers k) = Finite (d k)).
  { intros k; apply distance_finitePoint; eapply inImage_finite; apply Hin. }
  assert (Hd0 : d key = 0).
  { unfold d; rewrite Hkey, distance_Finite, Real_distance_same; reflexivity. }
  assert (Hpos : forall k, 0 <= d k).
  { intros k; unfold d.
    destruct (Hin k) as (qx & qy & -> & _); rewrite Hkey, distance_Finite.
    apply Real_distance_nonneg. }
  destruct (nearestMarker (markers key) markers) as [picked |] eqn:Hsel.
  - exists picked; split; [reflexivity |].
    destruct (proj1 (nearestMarker_Finite _ _ _ Hd picked) Hsel)
      as (_ & Hmin & Hfirst).
    pose proof (Hmin key) as Hle; pose proof (Hpos picked) as Hge.
    split; [| split; [| reflexivity]].
    + assert (Hz : d picked = 0) by lra.
      unfold d in Hz.
      destruct (Hin picked) as (qx & qy & Hq & _).
      rewrite Hkey, Hq, distance_Finite in Hz; cbn [toR] in Hz.
      apply Real_distance_eq_0 in Hz; destruct Hz as [Hx Hy]; subst.
      congruence.
    + destruct (Nat.le_gt_cases (keyIndex picked) (keyIndex key)) as [L | L];
        [exact L |].
      specialize (Hfirst key L); lra.
  - exfalso.
    pose proof (proj1 (nearestMarker_None_Finite _ _ _ Hd) Hsel key); lra.
Qed.

Lemma handlePointerDown_on_marker_witness :
  exists picked,
    handlePointerDown (mkPoint 0.5 0.5) examplePhoto
      (createDefaultMarkers 1000 1000) None
      (mkEvent
         (x (toCanvas (mkPoint 0.5 0.5)
               (createDefaultMarkers 1000 1000 rightCard)) + 8)%js
         (y (toCanvas (mkPoint 0.5 0.5)
               (createDefaultMarkers 1000 1000 rightCard)) + 16)%js
         (mkRect 8 16))
    = Some picked
    /\ createDefaultMarkers 1000 1000 picked
       = createDefaultMarkers 1000 1000 rightCard.
Proof.
  destruct (handlePointerDown_on_marker 0.5 0.5 1000 1000 8 16
              "data:image/png;base64,AAAA" "2024-05-01T10:00:00.000Z"
              (createDefaultMarkers 1000 1000) None rightCard
              ltac:(lra) ltac:(lra)
              (createDefaultMarkers_in_image_aux 1000 1000 ltac:(lra) ltac:(lra)))
    as (picked & Hdown & Hsame & _).
  exists picked; split; assumption.
Defined.

(** ** More on the auto-suggest merge *)

Lemma mergeSuggestions_lookup (m : MarkerMap) (s : Suggestions) :
  exists next : MarkerMap,
    mergeSuggestions s (Some m) = Some next
    /\ forall key : MarkerKey,
        next key = match getSuggestion s key with
                   | Some suggestion => suggestion
                   | None => m key
                   end.
Proof.
  unfold mergeSuggestions; cbv zeta.
  eexists; split; [reflexivity |].
  intros key; rewrite merge_loop.
  destruct (getSuggestion s key) as [p |] eqn:E; [| reflexivity].
  apply getSuggestion_Some_key in E.
  destruct (existsb (MarkerKey_eqb key) (suggestionKeys s)) eqn:X;
    [reflexivity |].
  assert (Hex : existsb (MarkerKey_eqb key) (suggestionKeys s) = true).
  { apply existsb_exists; exists key; split;
      [assumption | apply MarkerKey_eqb_refl]. }
  congruence.
Qed.

(** Merging the same suggestions a second time changes nothing, and a merge
    of suggestions that lie within the image into markers that lie within
    the image gives markers within the image. *)
Theorem mergeSuggestions_idempotent_in_image
        (W H : R) (m : MarkerMap) (s : Suggestions) :
  exists once twice : MarkerMap,
    mergeSuggestions s (Some m) = Some once
    /\ mergeSuggestions s (Some once) = Some twice
    /\ (forall key, twice key = once key)
    /\ ((forall key, inImage W H (m key)) ->
        (forall key p, getSuggestion s key = Some p -> inImage W H p) ->
        forall key, inImage W H (once key)).
Proof.
  destruct (mergeSuggestions_lookup m s) as (once & Honce & Hlook).
  destruct (mergeSuggestions_lookup once s) as (twice & Htwice & Hlook').
  exists once, twice; repeat split; try assumption.
  - intros key; rewrite Hlook', Hlook.
    destruct (getSuggestion s key); reflexivity.
  - intros Hm Hs key; rewrite Hlook.
    destruct (getSuggestion s key) as [p |] eqn:E; [eapply Hs, E | apply Hm].
Qed.

Lemma mergeSuggestions_idempotent_in_image_witness :
  exists once : MarkerMap,
    mergeSuggestions [(leftPupil, Some (mkPoint 10 20))]
      (Some (createDefaultMarkers 1000 1000)) = Some once
    /\ forall key, inImage 1000 1000 (once key).
Proof.
  destruct (mergeSuggestions_idempotent_in_image 1000 1000
              (createDefaultMarkers 1000 1000)
              [(leftPupil, Some (mkPoint 10 20))])
    as (once & twice & Honce & _ & _ & Hin).
  exists once; split; [exact Honce |].
  apply Hin.
  - apply createDefaultMarkers_in_image_aux; lra.
  - intros key p; destruct key; cbn; intros E; try discriminate.
    injection E as <-; exists 10, 20; split; [reflexivity | lra].
Defined.

(** ** Landmarks *)

Lemma collectIndexedPoints_nil (landmarks : list Landmark.t)
      (indices : list nat) (width height : number) :
  (forall i, In i indices -> (List.length landmarks <= i)%nat) ->
  collectIndexedPoints landmarks indices width height = [].
Proof.
  unfold collectIndexedPoints; intros Hout.
  induction indices as [| i rest IH]; [reflexivity |].
  cbn [flat_map].
  assert (Hi : nth_error landmarks i = None)
    by (apply nth_error_None, Hout; left; reflexivity).
  rewrite Hi; cbn [app]; apply IH.
  intros j Hj; apply Hout; right; exact Hj.
Qed.

Lemma collectIndexedPoints_cons (landmarks : list Landmark.t)
      (indices : list nat) (width height : number) (i : nat) :
  In i indices -> (i < List.length landmarks)%nat ->
  collectIndexedPoints landmarks indices width height <> [].
Proof.
  unfold collectIndexedPoints; intros Hin Hlt.
  induction indices as [| j rest IH]; [contradiction |].
  cbn [flat_map].
  destruct (nth_error landmarks j) as [l |] eqn:Hj.
  - cbn; discriminate.
  - destruct Hin as [-> | Hin].
    + apply nth_error_None in Hj; lia.
    + cbn [app]; apply IH, Hin.
Qed.

Lemma collectIndexedPoints_In (landmarks : list Landmark.t)
      (indices : list nat) (width height : number) (p : Point) :
  In p (collectIndexedPoints landmarks indices width height) ->
  exists landmark, In landmark landmarks /\ p = toPoint landmark width height.
Proof.
  unfold collectIndexedPoints; intros Hp.
  apply in_map_iff in Hp; destruct Hp as (l & <- & Hl).
  apply in_flat_map in Hl; destruct Hl as (i & _ & Hi).
  destruct (nth_error landmarks i) as [l' |] eqn:E; [| contradiction].
  destruct Hi as [<- | []].
  exists l'; split; [eapply nth_error_In, E | reflexivity].
Qed.

(** The suggested pupil exists iff some index of its two lists is within
    the landmarks. *)
Lemma pupil_suggestion (landmarks : list Landmark.t) (iris fallback : list nat)
      (width height : number) (i : nat) :
  In i fallback ->
  (forall j, In j iris \/ In j fallback -> (i <= j)%nat) ->
  (exists p,
      orElse (averagePoints (collectIndexedPoints landmarks iris width height))
             (averagePoints
                (collectIndexedPoints landmarks fallback width height))
      = Some p)
  <-> (i < List.length landmarks)%nat.
Proof.
  intros Hi Hmin; split.
  - intros (p & Hp).
    destruct (Nat.lt_ge_cases i (List.length landmarks)) as [L | L]; [exact L |].
    exfalso.
    rewrite (collectIndexedPoints_nil landmarks iris) in Hp
      by (intros j Hj; specialize (Hmin j (or_introl Hj)); lia).
    rewrite (collectIndexedPoints_nil landmarks fallback) in Hp
      by (intros j Hj; specialize (Hmin j (or_intror Hj)); lia).
    discriminate Hp.
  - intros L.
    pose proof (collectIndexedPoints_cons landmarks fallback width height i Hi L)
      as Hne.
    destruct (averagePoints (collectIndexedPoints landmarks iris width height))
      as [p |]; [exists p; reflexivity |].
    destruct (averagePoints
                (collectIndexedPoints landmarks fallback width height))
      as [p |] eqn:E; [exists p; reflexivity |].
    apply averagePoints_None in E; contradiction.
Qed.

Lemma left_pupil_indices (j : nat) :
  In j LEFT_IRIS_INDICES \/ In j LEFT_EYE_FALLBACK -> (33 <= j)%nat.
Proof. cbn; intros H; repeat destruct H as [H | H]; lia. Qed.

Lemma right_pupil_indices (j : nat) :
  In j RIGHT_IRIS_INDICES \/ In j RIGHT_EYE_FALLBACK -> (263 <= j)%nat.
Proof. cbn; intros H; repeat destruct H as [H | H]; lia. Qed.

Lemma estimateCardCorners_Some (landmarks : list Landmark.t)
      (width height : number) :
  landmarks <> [] ->
  exists corners, estimateCardCorners landmarks width height = Some corners.
Proof.
  destruct landmarks; [contradiction |].
  intros _; unfold estimateCardCorners; eexists; reflexivity.
Qed.

(** [autoSuggestMarkers] after the detection, on the first face found. *)
Lemma autoSuggestMarkers_face (landmarks : list Landmark.t)
      (faces : list (list Landmark.t)) (width height : number) :
  let result :=
    autoSuggestMarkers (Detected (Some (landmarks :: faces))) width height in
  ((264 <= List.length landmarks)%nat ->
   status result = success
   /\ exists lp rp lc rc,
       suggestions result
       = [(leftPupil, Some lp); (rightPupil, Some rp);
          (leftCard, Some lc); (rightCard, Some rc)]
       /\ orElse
            (averagePoints
               (collectIndexedPoints landmarks LEFT_IRIS_INDICES width height))
            (averagePoints
               (collectIndexedPoints landmarks LEFT_EYE_FALLBACK width height))
          = Some lp
       /\ orElse
            (averagePoints
               (collectIndexedPoints landmarks RIGHT_IRIS_INDICES width height))
            (averagePoints
               (collectIndexedPoints landmarks RIGHT_EYE_FALLBACK width height))
          = Some rp
       /\ estimateCardCorners landmarks width height = Some (lc, rc))
  /\ ((List.length landmarks < 264)%nat ->
      status result = no_face /\ suggestions result = []).
Proof.
  cbv zeta; unfold autoSuggestMarkers; cbn [nth_error].
  pose proof (pupil_suggestion landmarks LEFT_IRIS_INDICES LEFT_EYE_FALLBACK
                width height 33%nat
                ltac:(cbn; auto) left_pupil_indices) as HL.
  pose proof (pupil_suggestion landmarks RIGHT_IRIS_INDICES RIGHT_EYE_FALLBACK
                width height 263%nat
                ltac:(cbn; auto) right_pupil_indices) as HR.
  split; intros Hlen.
  - destruct (proj2 HL ltac:(lia)) as (lp & ->).
    destruct (proj2 HR ltac:(lia)) as (rp & ->).
    destruct (estimateCardCorners_Some landmarks width height)
      as ([lc rc] & ->).
    { intros ->; cbn in Hlen; lia. }
    cbn [status suggestions app].
    split; [reflexivity |].
    exists lp, rp, lc, rc; repeat split.
  - destruct (orElse _ _) as [lp |] eqn:EL; [| split; reflexivity].
    destruct (orElse
                (averagePoints
                   (collectIndexedPoints landmarks RIGHT_IRIS_INDICES _ _)) _)
      as [rp |] eqn:ER; [| split; reflexivity].
    exfalso.
    assert (263 < List.length landmarks)%nat by (apply HR; eauto).
    lia.
Qed.

(** [autoSuggestMarkers] succeeds exactly when the detection returned a
    first face of at least 264 landmarks (enough to reach an eye landmark
    on each side); on success it supplies all four markers, card corners
    included, and on any other outcome it supplies none, so that
    [runAutoDetect] leaves the markers as they are.  The status is "error"
    exactly when the detection threw. *)
Theorem autoSuggestMarkers_status (detection : Detection)
        (width height : number) :
  let result := autoSuggestMarkers detection width height in
  (status result = success
   <-> exists landmarks faces,
        detection = Detected (Some (landmarks :: faces))
        /\ (264 <= List.length landmarks)%nat)
  /\ (status result = success ->
      forall key, exists p, getSuggestion (suggestions result) key = Some p)
  /\ (status result <> success ->
      suggestions result = []
      /\ forall markers, runAutoDetect result markers = markers)
  /\ (status result = error <-> detection = DetectionThrew).
Proof.
  cbv zeta.
  destruct detection as [| [[| landmarks faces] |]].
  - (* the detection threw *)
    cbn; repeat split; try discriminate; try reflexivity;
      try (intros (? & ? & E & _); discriminate E);
      intros; reflexivity.
  - (* an empty array of faces *)
    cbn; repeat split; try discriminate; try reflexivity;
      try (intros (? & ? & E & _); discriminate E);
      intros; reflexivity.
  - (* a first face *)
    destruct (autoSuggestMarkers_face landmarks faces width height)
      as [Hok Hfew].
    destruct (Nat.lt_ge_cases (List.length landmarks) 264) as [L | L].
    + destruct (Hfew L) as [Hs Hsug].
      unfold runAutoDetect; rewrite Hs, Hsug.
      repeat split; try discriminate; try reflexivity.
      intros (l & f & E & Hl); injection E as <- <-; lia.
    + destruct (Hok L) as (Hs & lp & rp & lc & rc & Hsug & _).
      rewrite Hs, Hsug.
      repeat split; try discriminate; try congruence.
      * intros _; exists landmarks, faces; auto.
      * intros _ key; destruct key; cbn; eauto.
  - (* no faceLandmarks property *)
    cbn; repeat split; try discriminate; try reflexivity;
      try (intros (? & ? & E & _); discriminate E);
      intros; reflexivity.
Qed.

Lemma autoSuggestMarkers_status_witness :
  suggestions (autoSuggestMarkers (Detected (Some [])) 1280 720) = [].
Proof.
  apply (proj1 (proj2 (proj2
           (autoSuggestMarkers_status (Detected (Some [])) 1280 720)))).
  discriminate.
Defined.

Lemma toPoint_normalized (landmark : Landmark.t) (W H : R) :
  0 <= W -> 0 <= H -> normalized landmark ->
  inImage W H (toPoint landmark W H).
Proof.
  intros HW HH (a & b & Ha & Hb & Ra & Rb).
  unfold toPoint; rewrite Ha, Hb.
  exists (a * W), (b * H); split; [reflexivity | split; nra].
Qed.

Lemma collectIndexedPoints_in_image (landmarks : list Landmark.t)
      (indices : list nat) (W H : R) :
  0 <= W -> 0 <= H -> Forall normalized landmarks ->
  Forall (inImage W H) (collectIndexedPoints landmarks indices W H).
Proof.
  intros HW HH Hall; apply Forall_forall; intros p Hp.
  apply collectIndexedPoints_In in Hp; destruct Hp as (l & Hl & ->).
  apply toPoint_normalized; try assumption.
  eapply Forall_forall; eassumption.
Qed.

Lemma averagePoints_Some_in_image (W H : R) (points : list Point) (p : Point) :
  Forall (inImage W H) points -> averagePoints points = Some p ->
  inImage W H p.
Proof.
  intros Hall Hp.
  destruct (averagePoints_hull W H points) as (q & Hq & Hin); try assumption.
  - intros ->; discriminate Hp.
  - congruence.
Qed.

Lemma orElse_in_image (W H : R) (first second : list Point) (p : Point) :
  Forall (inImage W H) first -> Forall (inImage W H) second ->
  orElse (averagePoints first) (averagePoints second) = Some p ->
  inImage W H p.
Proof.
  intros H1 H2; unfold orElse.
  destruct (averagePoints first) as [q |] eqn:E.
  - intros Hp; injection Hp as <-.
    exact (averagePoints_Some_in_image W H first q H1 E).
  - intros Hp; exact (averagePoints_Some_in_image W H second p H2 Hp).
Qed.

(** When the detector keeps its contract (landmark coordinates normalised to
    [[0, 1]]) and the first face has at least 264 landmarks, the two pupils
    that [autoSuggestMarkers] suggests lie within the image. *)
Theorem autoSuggestMarkers_pupils_in_image
        (landmarks : list Landmark.t) (faces : list (list Landmark.t))
        (W H : R) :
  0 <= W -> 0 <= H ->
  Forall normalized landmarks ->
  (264 <= List.length landmarks)%nat ->
  let result :=
    autoSuggestMarkers (Detected (Some (landmarks :: faces))) W H in
  exists lp rp : Point,
    getSuggestion (suggestions result) leftPupil = Some lp
    /\ getSuggestion (suggestions result) rightPupil = Some rp
    /\ inImage W H lp /\ inImage W H rp.
Proof.
  intros HW HH Hall Hlen; cbv zeta.
  destruct (proj1 (autoSuggestMarkers_face landmarks faces W H) Hlen)
    as (_ & lp & rp & lc & rc & -> & Hlp & Hrp & _).
  exists lp, rp; split; [reflexivity | split; [reflexivity |]].
  split; eapply orElse_in_image; try eassumption;
    apply collectIndexedPoints_in_image; assumption.
Qed.

(** *** The suggested card corners *)

Lemma fold_min_Finite (rs : list R) (a : R) :
  exists m : R,
    fold_left Math.min (map Finite rs) (Finite a) = Finite m
    /\ m <= a /\ Forall (fun r => m <= r) rs.
Proof.
  revert a; induction rs as [| r rs IH]; intros a.
  - exists a; cbn; repeat split; [lra | constructor].
  - cbn [map fold_left Math.min].
    destruct (IH (Rmin a r)) as (m & -> & Hm & Hall).
    exists m; split; [reflexivity |].
    pose proof (Rmin_l a r); pose proof (Rmin_r a r).
    split; [lra | constructor; [lra | assumption]].
Qed.

Lemma fold_max_Finite (rs : list R) (a : R) :
  exists m : R,
    fold_left Math.max (map Finite rs) (Finite a) = Finite m
    /\ a <= m /\ Forall (fun r => r <= m) rs.
Proof.
  revert a; induction rs as [| r rs IH]; intros a.
  - exists a; cbn; repeat split; [lra | constructor].
  - cbn [map fold_left Math.max].
    destruct (IH (Rmax a r)) as (m & -> & Hm & Hall).
    exists m; split; [reflexivity |].
    pose proof (Rmax_l a r); pose proof (Rmax_r a r).
    split; [lra | constructor; [lra | assumption]].
Qed.

Lemma min_max_Finite (r : R) (rs : list R) :
  exists lo hi : R,
    Math_min_of (map Finite (r :: rs)) = Finite lo
    /\ Math_max_of (map Finite (r :: rs)) = Finite hi
    /\ lo <= hi
    /\ Forall (fun v => lo <= v <= hi) (r :: rs).
Proof.
  unfold Math_min_of, Math_max_of; cbn [map fold_left Math.min Math.max].
  destruct (fold_min_Finite rs r) as (lo & -> & Hlo & Hlos).
  destruct (fold_max_Finite rs r) as (hi & -> & Hhi & His).
  exists lo, hi; repeat split; try lra.
  constructor; [lra |].
  rewrite Forall_forall in *; intros v Hv.
  specialize (Hlos v Hv); specialize (His v Hv); lra.
Qed.

Lemma finite_xs (landmarks : list Landmark.t) (W H : R) :
  Forall finiteLandmark landmarks ->
  map x (map (fun l => toPoint l W H) landmarks)
  = map Finite (map (fun l => toR (Landmark.x l) * W) landmarks)
  /\ map y (map (fun l => toPoint l W H) landmarks)
     = map Finite (map (fun l => toR (Landmark.y l) * H) landmarks).
Proof.
  induction 1 as [| l rest (a & b & Ha & Hb) _ [IHx IHy]]; [split; reflexivity |].
  cbn [map]; rewrite IHx, IHy.
  unfold toPoint; rewrite Ha, Hb; split; reflexivity.
Qed.

(** For a non-empty list of landmarks with finite coordinates,
    [estimateCardCorners] returns two corners at the same height, a half
    width [half >= 0] to the left and to the right of a centre, where
    [2 * half] is 0.7 times the width of the landmarks' bounding box and the
    centre is the forehead landmark (index 10) when there is one.  Used as
    card markers, whatever the finite pupils, they make a card
    [2 * half] px wide and never raise the tilt issue. *)
Theorem estimateCardCorners_level
        (landmarks : list Landmark.t) (W H : R) :
  landmarks <> [] ->
  Forall finiteLandmark landmarks ->
  exists cx cy half minX maxX : R,
    estimateCardCorners landmarks W H
    = Some (mkPoint (cx - half)%R cy, mkPoint (cx + half)%R cy)
    /\ Math_min_of (map x (map (fun l => toPoint l W H) landmarks))
       = Finite minX
    /\ Math_max_of (map x (map (fun l => toPoint l W H) landmarks))
       = Finite maxX
    /\ minX <= maxX
    /\ 2 * half = 0.7 * (maxX - minX)
    /\ (forall forehead, nth_error landmarks 10 = Some forehead ->
                         x (toPoint forehead W H) = Finite cx)
    /\ (forall lp rp : Point,
           finitePoint lp -> finitePoint rp ->
           let result :=
             calculatePd
               (mkMarkerMap lp rp (mkPoint (cx - half)%R cy)
                            (mkPoint (cx + half)%R cy)) in
           cardPixelWidth result = Finite (2 * half)
           /\ ~ In CardTilted (issues result)).
Proof.
  intros Hne Hall.
  destruct landmarks as [| l0 rest]; [contradiction |].
  destruct (finite_xs (l0 :: rest) W H Hall) as [Hxs Hys].
  unfold estimateCardCorners; cbv zeta.
  rewrite Hxs, Hys.
  cbn [map] in *.
  destruct (min_max_Finite (toR (Landmark.x l0) * W)
              (map (fun l => toR (Landmark.x l) * W) rest))
    as (minX & maxX & Hmin & Hmax & Hle & _).
  destruct (min_max_Finite (toR (Landmark.y l0) * H)
              (map (fun l => toR (Landmark.y l) * H) rest))
    as (minY & maxY & HminY & HmaxY & HleY & _).
  cbn [map] in Hmin, Hmax, HminY, HmaxY.
  rewrite Hmin, Hmax, HminY, HmaxY.
  assert (Hforehead :
    forall f, nth_error (l0 :: rest) 10 = Some f ->
              exists a b : R, toPoint f W H = mkPoint a b).
  { intros f Hf; apply nth_error_In in Hf.
    rewrite Forall_forall in Hall; destruct (Hall f Hf) as (a & b & Ha & Hb).
    unfold toPoint; rewrite Ha, Hb; do 2 eexists; reflexivity. }
  assert (Htilt :
    forall cx cy half : R, 0 <= half ->
    forall lp rp : Point, finitePoint lp -> finitePoint rp ->
      let result :=
        calculatePd (mkMarkerMap lp rp (mkPoint (cx - half)%R cy)
                                 (mkPoint (cx + half)%R cy)) in
      cardPixelWidth result = Finite (2 * half)
      /\ ~ In CardTilted (issues result)).
  { intros cx cy half Hhalf lp rp Hlp Hrp; cbv zeta.
    destruct (finitePoint_inv _ Hlp) as (x1 & y1 & ->).
    destruct (finitePoint_inv _ Hrp) as (x2 & y2 & ->).
    rewrite calculatePd_mk; unfold Real.calculatePd;
      cbn [cardPixelWidth issues].
    rewrite Real_distance_horizontal by lra.
    rewrite Real_cardTiltRatio_level'.
    split; [f_equal; lra |].
    unfold Real.issues.
    assert (H3 : Number.Rltb 0.2 0 = false) by (apply Rltb_false; lra).
    rewrite H3.
    destruct (Number.Rltb _ 90), (Real.outOfRange _); cbn;
      intuition discriminate. }
  destruct (nth_error (l0 :: rest) 10) as [f |] eqn:Hf.
  - destruct (Hforehead f eq_refl) as (fx & fy & Hfp); rewrite Hfp.
    cbn [x y].
    exists fx, (fy - (maxY - minY) * 0.05), ((maxX - minX) * 0.7 / 2),
      minX, maxX.
    split.
    { cbn [Number.sub Number.add Number.neg Number.mul].
      rewrite div_Finite by lra.
      cbn [Number.sub Number.add Number.neg].
      repeat f_equal; lra. }
    repeat split; try reflexivity; try lra.
    + intros forehead E; injection E as <-; rewrite Hfp; reflexivity.
    + apply Htilt; try assumption; lra.
    + apply Htilt; try assumption; lra.
  - exists ((minX + maxX) / 2),
      (minY + (maxY - minY) * 0.2 - (maxY - minY) * 0.05),
      ((maxX - minX) * 0.7 / 2), minX, maxX.
    split.
    { cbn [Number.sub Number.add Number.neg Number.mul].
      rewrite !div_Finite by lra.
      cbn [Number.sub Number.add Number.neg].
      repeat f_equal; lra. }
    repeat split; try reflexivity; try lra.
    + intros forehead E; discriminate E.
    + apply Htilt; try assumption; lra.
    + apply Htilt; try assumption; lra.
Qed.

(** ** The capture and auto-detect state *)

Lemma App_apply_not_idle (st : App.State) (event : App.Event) :
  App.photo st <> None ->
  App.autoState st <> App.idle ->
  App.photo (App.apply st event) <> None
  /\ App.autoState (App.apply st event) <> App.idle
  /\ App.step (App.apply st event) = App.step st
  /\ (App.markers st <> None -> App.markers (App.apply st event) <> None).
Proof.
  intros Hphoto Hauto.
  destruct event as [next | | result]; cbn [App.apply].
  - repeat split; try assumption; discriminate.
  - unfold App.detectStarted.
    destruct (App.photo st) eqn:E; [| contradiction].
    cbn; repeat split; try discriminate; auto.
  - cbn; repeat split; try assumption; try discriminate.
    unfold runAutoDetect, mergeSuggestions.
    destruct (App.markers st); [| contradiction].
    intros _; destruct (status result); discriminate.
Qed.

(** The automatic detection runs once per capture.  A capture puts the
    default markers of the photo in place and arms the effect; once a
    detection has started, no sequence of marker edits, detection results
    and manual re-runs arms it again, the photo and the markers stay in
    place (a failed detection leaves usable markers), and a retake disarms
    the effect and clears photo and markers. *)
Theorem App_autoDetect_once (st : App.State) (captured : CapturedPhoto)
        (events : list App.Event) :
  let st1 := App.handleCapture (Some captured) st in
  let st2 := fold_left App.apply events (App.detectStarted st1) in
  App.autoDetectEffect st1 = true
  /\ App.markers st1
     = Some (createDefaultMarkers (width captured) (height captured))
  /\ App.autoDetectEffect st2 = false
  /\ App.photo st2 = Some captured
  /\ App.markers st2 <> None
  /\ App.autoDetectEffect (App.retakePhoto st2) = false
  /\ App.markers (App.retakePhoto st2) = None
  /\ App.handleCapture None st = st.
Proof.
  cbv zeta.
  set (st1 := App.handleCapture (Some captured) st).
  assert (Hinv : forall evs s,
             App.photo s = Some captured -> App.autoState s <> App.idle ->
             App.markers s <> None ->
             let s' := fold_left App.apply evs s in
             App.photo s' = Some captured /\ App.autoState s' <> App.idle
             /\ App.markers s' <> None).
  { induction evs as [| e evs IH]; intros s Hp Ha Hm; cbn [fold_left].
    - auto.
    - apply IH.
      + destruct e; cbn; try assumption.
        unfold App.detectStarted; rewrite Hp; cbn; reflexivity.
      + apply App_apply_not_idle; [rewrite Hp; discriminate | assumption].
      + apply App_apply_not_idle;
          [rewrite Hp; discriminate | assumption | assumption]. }
  destruct (Hinv events (App.detectStarted st1)) as (Hp & Ha & Hm);
    try (cbn; (reflexivity || discriminate)).
  repeat split; try reflexivity; try assumption.
  unfold App.autoDetectEffect.
  destruct (App.step _), (App.photo _), (App.markers _), (App.autoState _);
    try reflexivity; contradiction.
Qed.

(** ** The scale of the canvas *)

(** With the scale that the canvas computes from its rendered size [w x h]
    and the photo's size [W x H] (positive, and rendered at no less than a
    ten-thousandth of its size), a pointer at offset [(ox, oy)] within the
    rendered surface is the image point [(ox * W / w, oy * H / h)]: the
    mapping is proportional and needs no clamping. *)
Theorem getImagePointFromEvent_proportional
        (w h W H ox oy rl rt : R) (url taken : string) :
  0 < W -> 0 < H ->
  0.0001 * W <= w -> 0.0001 * H <= h ->
  0 <= ox <= w -> 0 <= oy <= h ->
  let photo := mkPhoto url W H taken in
  let scale := canvasScale (Size.mk w h) photo in
  getImagePointFromEvent scale photo
    (mkEvent (ox + rl)%R (oy + rt)%R (mkRect rl rt))
  = mkPoint (ox * W / w)%R (oy * H / h)%R
  /\ inImage W H (mkPoint (ox * W / w)%R (oy * H / h)%R).
Proof.
  intros HW HH Hw Hh Hox Hoy; cbv zeta.
  assert (Hcoord : forall o s S : R,
             0 < S -> 0.0001 * S <= s -> 0 <= o <= s ->
             0.0001 <= s / S /\ 0 <= o * S / s <= S
             /\ o / (s / S) = o * S / s).
  { intros o s S HS Hs Ho.
    assert (Hs0 : 0 < s) by nra.
    assert (Hi : 0 < / S) by (apply Rinv_0_lt_compat, HS).
    assert (Hj : 0 < / s) by (apply Rinv_0_lt_compat, Hs0).
    assert (E1 : S * / S = 1) by (apply Rinv_r; lra).
    assert (E2 : s * / s = 1) by (apply Rinv_r; lra).
    split; [| split].
    - unfold Rdiv.
      replace 0.0001 with (0.0001 * S * / S) by (rewrite Rmult_assoc, E1; lra).
      apply Rmult_le_compat_r; lra.
    - unfold Rdiv; split.
      + apply Rmult_le_pos; [nra | lra].
      + replace S with (s * S * / s) at 2
          by (rewrite (Rmult_comm s S), Rmult_assoc, E2; lra).
        apply Rmult_le_compat_r; [lra | nra].
    - field; lra. }
  destruct (Hcoord ox w W HW Hw Hox) as (Hsx & Hbx & Ex).
  destruct (Hcoord oy h H HH Hh Hoy) as (Hsy & Hby & Ey).
  split.
  - unfold canvasScale; cbn [Size.width Size.height width height].
    rewrite !div_Finite by lra.
    rewrite getImagePointFromEvent_Finite.
    rewrite !Rmax_left by assumption.
    replace (ox + rl - rl) with ox by lra.
    replace (oy + rt - rt) with oy by lra.
    rewrite Ex, Ey, !Real_clamp_id by assumption.
    reflexivity.
  - do 2 eexists; split; [reflexivity | split; assumption].
Qed.

(** ** Instances of the properties above *)

Lemma estimateCardCorners_level_witness :
  exists cx cy half : R,
    estimateCardCorners
      [Landmark.mk 0.2 0.3 None; Landmark.mk 0.8 0.5 None] 1000 1000
    = Some (mkPoint (cx - half)%R cy, mkPoint (cx + half)%R cy).
Proof.
  destruct (estimateCardCorners_level
              [Landmark.mk 0.2 0.3 None; Landmark.mk 0.8 0.5 None] 1000 1000)
    as (cx & cy & half & minX & maxX & E & _).
  - discriminate.
  - repeat constructor; do 2 eexists; split; reflexivity.
  - exists cx, cy, half; exact E.
Defined.

Lemma autoSuggestMarkers_pupils_in_image_witness :
  exists lp : Point,
    getSuggestion
      (suggestions
         (autoSuggestMarkers
            (Detected (Some [repeat (Landmark.mk 0.5 0.5 None) 264]))
            1280 720))
      leftPupil = Some lp
    /\ inImage 1280 720 lp.
Proof.
  destruct (autoSuggestMarkers_pupils_in_image
              (repeat (Landmark.mk 0.5 0.5 None) 264) [] 1280 720)
    as (lp & rp & Hlp & _ & Hin & _).
  - lra.
  - lra.
  - apply Forall_forall; intros l Hl; apply repeat_spec in Hl; subst l.
    exists 0.5, 0.5; repeat split; lra.
  - rewrite repeat_length; apply Nat.le_refl.
  - exists lp; split; assumption.
Defined.

Lemma getImagePointFromEvent_proportional_witness :
  getImagePointFromEvent
    (canvasScale (Size.mk 500 250)
       (mkPhoto "data:image/png;base64,AAAA" 1000 500 "2024-05-01T10:00:00.000Z"))
    (mkPhoto "data:image/png;base64,AAAA" 1000 500 "2024-05-01T10:00:00.000Z")
    (mkEvent (500 + 8)%R (0 + 16)%R (mkRect 8 16))
  = mkPoint (500 * 1000 / 500)%R (0 * 500 / 250)%R.
Proof.
  apply (getImagePointFromEvent_proportional 500 250 1000 500 500 0 8 16); lra.
Defined.

(** * The measurement under binary64 arithmetic *)

Import QArith_base Qreals.
Local Open Scope R_scope.

Lemma pow2_53 : 2 ^ 53 = 9007199254740992.
Proof.
  change 2 with (IZR 2) at 1; rewrite pow_IZR.
  apply f_equal; vm_compute; reflexivity.
Qed.

Lemma IZR_le_pow2_53 (z : Z) : (Z.abs z <= 2 ^ 53)%Z -> Rabs (IZR z) <= 2 ^ 53.
Proof.
  intros H; rewrite <- abs_IZR, pow2_53.
  apply IZR_le; exact H.
Qed.

Lemma Rabs_le_bounds (a b : R) : Rabs a <= b -> - b <= a <= b.
Proof. unfold Rabs; destruct (Rcase_abs a); lra. Qed.

Lemma Q2R_Z (z : Z) : Q2R (z # 1) = IZR z.
Proof. unfold Q2R; simpl; lra. Qed.

Section RoundedArithmetic.

Variable Rd : Rounded.Rounding.
Hypothesis L : Rounded.Laws Rd.

Lemma rnd_0 : Rounded.rnd Rd 0 = 0.
Proof. apply (Rounded.rnd_IZR Rd L 0); simpl; lia. Qed.

Lemma rnd_1 : Rounded.rnd Rd 1 = 1.
Proof. apply (Rounded.rnd_IZR Rd L 1); simpl; lia. Qed.

Lemma rnd_near (a : R) :
  Rabs a <= 2 ->
  a - 1.2e-16 <= Rounded.rnd Rd a <= a + 1.2e-16.
Proof.
  intros H; pose proof (Rounded.rnd_error Rd L a H) as He.
  rewrite pow2_53 in He.
  apply Rabs_le_bounds in He; lra.
Qed.

Lemma fl_Finite (a : R) :
  Rabs (Rounded.rnd Rd a) <= Rounded.Omega Rd ->
  Rounded.fl Rd a = Finite (Rounded.rnd Rd a).
Proof.
  intros H; unfold Rounded.fl.
  destruct (Rle_dec _ _) as [_ | Hn]; [reflexivity | contradiction].
Qed.

Lemma fl_small (a : R) :
  Rabs a <= 2 -> Rounded.fl Rd a = Finite (Rounded.rnd Rd a).
Proof.
  intros H; apply fl_Finite.
  pose proof (rnd_near a H) as Hn.
  pose proof (Rounded.Omega_large Rd L) as HO; rewrite pow2_53 in HO.
  apply Rabs_le_bounds in H; apply Rabs_le; lra.
Qed.

Lemma fl_IZR (z : Z) :
  (Z.abs z <= 2 ^ 53)%Z -> Rounded.fl Rd (IZR z) = Finite (IZR z).
Proof.
  intros H; rewrite fl_Finite; rewrite (Rounded.rnd_IZR Rd L z H).
  - reflexivity.
  - pose proof (IZR_le_pow2_53 z H); pose proof (Rounded.Omega_large Rd L); lra.
Qed.

Lemma fl_0 : Rounded.fl Rd 0 = Finite 0.
Proof. apply (fl_IZR 0); simpl; lia. Qed.

Lemma fl_isNumber (a : R) : Rounded.isNumber (Rounded.fl Rd a).
Proof.
  unfold Rounded.fl.
  destruct (Rle_dec _ _); [exact I |]; destruct (Number.Rltb 0 a); exact I.
Qed.

Lemma fl_nonneg (a : R) : 0 <= a -> Rounded.nonneg (Rounded.fl Rd a).
Proof.
  intros H; unfold Rounded.fl.
  destruct (Rle_dec _ _) as [_ | Hn].
  - simpl; rewrite <- rnd_0; apply (Rounded.rnd_le Rd L); exact H.
  - destruct (Number.Rltb 0 a) eqn:E; [exact I |].
    apply Rltb_false in E.
    assert (a = 0) by lra; subst a.
    exfalso; apply Hn; rewrite rnd_0, Rabs_R0.
    pose proof (Rounded.Omega_large Rd L) as HO; rewrite pow2_53 in HO; lra.
Qed.

Lemma lit_Z (z : Z) :
  (Z.abs z <= 2 ^ 53)%Z -> Rounded.lit Rd (z # 1) = Finite (IZR z).
Proof. intros H; unfold Rounded.lit; rewrite Q2R_Z; apply fl_IZR, H. Qed.

Lemma lit_0 : Rounded.lit Rd 0 = Finite 0.
Proof. apply (lit_Z 0); simpl; lia. Qed.

Lemma lit_1 : Rounded.lit Rd 1 = Finite 1.
Proof. apply (lit_Z 1); simpl; lia. Qed.

Lemma lit_2 : Rounded.lit Rd 2 = Finite 2.
Proof. apply (lit_Z 2); simpl; lia. Qed.

Lemma lit_45 : Rounded.lit Rd 45 = Finite 45.
Proof. apply (lit_Z 45); simpl; lia. Qed.


Lemma lit_90 : Rounded.lit Rd 90 = Finite 90.
Proof. apply (lit_Z 90); simpl; lia. Qed.

Lemma lit_220 : Rounded.lit Rd 220 = Finite 220.
Proof. apply (lit_Z 220); simpl; lia. Qed.

(** A decimal literal of magnitude at most 2 is a finite number within
    1.2e-16 of the decimal. *)
Lemma lit_near (q : Q) :
  Rabs (Q2R q) <= 2 ->
  Rounded.lit Rd q = Finite (Rounded.rnd Rd (Q2R q))
  /\ Q2R q - 1.2e-16 <= Rounded.rnd Rd (Q2R q) <= Q2R q + 1.2e-16.
Proof.
  intros H; split; [apply fl_small, H | apply rnd_near, H].
Qed.

End RoundedArithmetic.

Section RoundedOperations.

Variable Rd : Rounded.Rounding.
Hypothesis L : Rounded.Laws Rd.

Lemma nonneg_isNumber (a : number) : Rounded.nonneg a -> Rounded.isNumber a.
Proof. destruct a; simpl; tauto. Qed.

Lemma Math_hypot_nonneg (a b : number) :
  Rounded.isNumber a -> Rounded.isNumber b ->
  Rounded.nonneg (Rounded.Math_hypot Rd a b).
Proof.
  destruct a as [r | | |], b as [s | | |]; simpl; try tauto.
  intros _ _; destruct (Rle_dec _ _); simpl; [apply (Rounded.hyp_nonneg Rd L) | exact I].
Qed.


Lemma distance_nonneg (p q : Generic.Point number) :
  Rounded.finitePoint p -> Rounded.finitePoint q ->
  Rounded.nonneg (Generic.distance (Rounded.ops Rd) p q).
Proof.
  intros [Hpx Hpy] [Hqx Hqy].
  destruct p as [px py], q as [qx qy]; simpl in *.
  apply isFinite_inv in Hpx, Hpy, Hqx, Hqy.
  destruct Hpx as [a ->], Hpy as [b ->], Hqx as [c ->], Hqy as [d ->].
  unfold Generic.distance; simpl.
  apply Math_hypot_nonneg; apply fl_isNumber.
Qed.

Lemma div_isNumber (a : number) (s : R) :
  Rounded.isNumber a -> 0 < s -> Rounded.isNumber (Rounded.div Rd a (Finite s)).
Proof.
  intros Ha Hs; destruct a as [r | | |]; simpl in *; try tauto.
  - destruct (Req_dec_T s 0); [lra | apply fl_isNumber].
  - destruct (Number.Rltb s 0); exact I.
  - destruct (Number.Rltb s 0); exact I.
Qed.

Lemma clamp_unit (v : number) :
  Rounded.isNumber v ->
  exists c : R,
    Generic.clamp (Rounded.ops Rd) v (Finite 0) (Finite 1) = Finite c
    /\ 0 <= c <= 1.
Proof.
  intros Hv; destruct v as [r | | |]; simpl in *; try tauto.
  - exists (Rmin 1 (Rmax 0 r)); split; [reflexivity |].
    unfold Rmin, Rmax; destruct (Rle_dec 0 r); destruct (Rle_dec 1 _); lra.
  - exists 1; split; [reflexivity | lra].
  - exists (Rmin 1 0); split; [reflexivity |].
    unfold Rmin; destruct (Rle_dec 1 0); lra.
Qed.

(** [scaleConfidence] is a real of [[0, 1]] whatever the card width. *)
Lemma scaleConfidence_unit (w : number) :
  Rounded.nonneg w ->
  exists sc : R,
    Generic.clamp (Rounded.ops Rd)
      (Generic.div (Rounded.ops Rd)
         (Generic.sub (Rounded.ops Rd) w (Generic.lit (Rounded.ops Rd) 90))
         (Generic.lit (Rounded.ops Rd) 220))
      (Generic.lit (Rounded.ops Rd) 0) (Generic.lit (Rounded.ops Rd) 1)
    = Finite sc
    /\ 0 <= sc <= 1.
Proof.
  intros Hw; cbn [Generic.lit Generic.div Generic.sub Rounded.ops].
  rewrite (lit_90 Rd L), (lit_220 Rd L), (lit_0 Rd L), (lit_1 Rd L).
  apply clamp_unit, div_isNumber; [| lra].
  destruct w as [h | | |]; simpl in *; try tauto.
  apply fl_isNumber.
Qed.

(** The tilt ratio is a number that is not negative. *)
Lemma cardTiltRatio_nonneg (w : number) (dy : R) :
  Rounded.nonneg w ->
  Rounded.nonneg
    (Rounded.div Rd (Math.abs (Finite dy)) (Math.max w (Finite 1))).
Proof.
  intros Hw; destruct w as [h | | |]; simpl in *; try tauto.
  - destruct (Req_dec_T (Rmax h 1) 0) as [E | E].
    + pose proof (Rmax_r h 1); lra.
    + apply (fl_nonneg Rd L).
      pose proof (Rmax_r h 1); pose proof (Rabs_pos dy).
      apply Rmult_le_pos; [assumption |].
      left; apply Rinv_0_lt_compat; lra.
  - lra.
Qed.

Lemma lit_0_2 :
  exists c : R,
    Rounded.lit Rd 0.2 = Finite c /\ 0.2 - 1.2e-16 <= c <= 0.2 + 1.2e-16.
Proof.
  destruct (lit_near Rd L 0.2) as [H1 H2].
  - rewrite Rabs_pos_eq; lra.
  - eauto.
Qed.

Lemma lit_0_3 :
  exists c : R,
    Rounded.lit Rd 0.3 = Finite c /\ 0.3 - 1.2e-16 <= c <= 0.3 + 1.2e-16.
Proof.
  destruct (lit_near Rd L 0.3) as [H1 H2].
  - rewrite Rabs_pos_eq; lra.
  - eauto.
Qed.

Lemma lit_0_45 :
  exists c : R,
    Rounded.lit Rd 0.45 = Finite c /\ 0.45 - 1.2e-16 <= c <= 0.45 + 1.2e-16.
Proof.
  destruct (lit_near Rd L 0.45) as [H1 H2].
  - rewrite Rabs_pos_eq; lra.
  - eauto.
Qed.

Lemma lit_0_35 :
  exists c : R,
    Rounded.lit Rd 0.35 = Finite c /\ 0.35 - 1.2e-16 <= c <= 0.35 + 1.2e-16
    /\ Rounded.rnd Rd c = c.
Proof.
  destruct (lit_near Rd L 0.35) as [H1 H2].
  - rewrite Rabs_pos_eq; lra.
  - exists (Rounded.rnd Rd (Q2R 0.35)).
    split; [exact H1 | split; [exact H2 | apply (Rounded.rnd_rnd Rd L)]].
Qed.

(** [tiltConfidence] is a real of [[0, 1]]. *)
Lemma tiltConfidence_unit (w : number) (dy : R) :
  Rounded.nonneg w ->
  exists tc : R,
    Generic.sub (Rounded.ops Rd) (Generic.lit (Rounded.ops Rd) 1)
      (Generic.clamp (Rounded.ops Rd)
         (Generic.div (Rounded.ops Rd)
            (Generic.div (Rounded.ops Rd)
               (Generic.Math_abs (Rounded.ops Rd) (Finite dy))
               (Generic.Math_max (Rounded.ops Rd) w
                  (Generic.lit (Rounded.ops Rd) 1)))
            (Generic.lit (Rounded.ops Rd) 0.2))
         (Generic.lit (Rounded.ops Rd) 0) (Generic.lit (Rounded.ops Rd) 1))
    = Finite tc
    /\ 0 <= tc <= 1.
Proof.
  intros Hw.
  cbn [Generic.lit Generic.div Generic.sub Generic.Math_abs Generic.Math_max
       Rounded.ops].
  rewrite (lit_0 Rd L), (lit_1 Rd L).
  destruct lit_0_2 as (c02 & -> & Hc02).
  destruct (clamp_unit
              (Rounded.div Rd
                 (Rounded.div Rd (Math.abs (Finite dy)) (Math.max w (Finite 1)))
                 (Finite c02))) as (cl & -> & Hcl).
  { apply div_isNumber; [| lra].
    apply nonneg_isNumber, cardTiltRatio_nonneg, Hw. }
  exists (Rounded.rnd Rd (1 - cl)); split.
  - apply (fl_small Rd L); rewrite Rabs_pos_eq; lra.
  - rewrite <- (rnd_0 Rd L) at 1; rewrite <- (rnd_1 Rd L) at 3.
    split; apply (Rounded.rnd_le Rd L); lra.
Qed.

(** The weighted sum [0.35 + scaleConfidence * 0.45 + tiltConfidence * 0.2]
    is at least the literal [0.35] and at most 1 up to rounding. *)
Lemma weighted_sum_bounds (sc tc : R) :
  0 <= sc <= 1 -> 0 <= tc <= 1 ->
  exists b b0 : R,
    Generic.add (Rounded.ops Rd)
      (Generic.add (Rounded.ops Rd) (Generic.lit (Rounded.ops Rd) 0.35)
         (Generic.mul (Rounded.ops Rd) (Finite sc)
            (Generic.lit (Rounded.ops Rd) 0.45)))
      (Generic.mul (Rounded.ops Rd) (Finite tc)
         (Generic.lit (Rounded.ops Rd) 0.2))
    = Finite b
    /\ Rounded.lit Rd 0.35 = Finite b0
    /\ b0 <= b <= 1 + 1e-15.
Proof.
  intros Hsc Htc.
  cbn [Generic.lit Generic.add Generic.mul Rounded.ops].
  destruct lit_0_2 as (c02 & -> & Hc02).
  destruct lit_0_45 as (c045 & -> & Hc045).
  destruct lit_0_35 as (c035 & -> & Hc035 & Hid).
  simpl.
  assert (Hp1 : 0 <= sc * c045 <= c045) by nra.
  assert (Hp2 : 0 <= tc * c02 <= c02) by nra.
  rewrite (fl_small Rd L (sc * c045)) by (rewrite Rabs_pos_eq; lra).
  rewrite (fl_small Rd L (tc * c02)) by (rewrite Rabs_pos_eq; lra).
  pose proof (rnd_near Rd L (sc * c045)) as N1.
  pose proof (rnd_near Rd L (tc * c02)) as N2.
  rewrite Rabs_pos_eq in N1, N2 by lra.
  specialize (N1 ltac:(lra)); specialize (N2 ltac:(lra)).
  assert (M1 : 0 <= Rounded.rnd Rd (sc * c045))
    by (rewrite <- (rnd_0 Rd L); apply (Rounded.rnd_le Rd L); lra).
  assert (M2 : 0 <= Rounded.rnd Rd (tc * c02))
    by (rewrite <- (rnd_0 Rd L); apply (Rounded.rnd_le Rd L); lra).
  simpl.
  rewrite (fl_small Rd L (c035 + _)) by (rewrite Rabs_pos_eq; lra).
  set (s1 := Rounded.rnd Rd (c035 + Rounded.rnd Rd (sc * c045))).
  assert (N3 : c035 + Rounded.rnd Rd (sc * c045) - 1.2e-16 <= s1
               <= c035 + Rounded.rnd Rd (sc * c045) + 1.2e-16)
    by (apply (rnd_near Rd L); rewrite Rabs_pos_eq; lra).
  assert (M3 : c035 <= s1)
    by (rewrite <- Hid; apply (Rounded.rnd_le Rd L); lra).
  simpl.
  rewrite (fl_small Rd L (s1 + _)) by (rewrite Rabs_pos_eq; lra).
  exists (Rounded.rnd Rd (s1 + Rounded.rnd Rd (tc * c02))), c035.
  split; [reflexivity | split; [reflexivity |]].
  assert (N4 : s1 + Rounded.rnd Rd (tc * c02) - 1.2e-16
               <= Rounded.rnd Rd (s1 + Rounded.rnd Rd (tc * c02))
               <= s1 + Rounded.rnd Rd (tc * c02) + 1.2e-16)
    by (apply (rnd_near Rd L); rewrite Rabs_pos_eq; lra).
  split; [| lra].
  apply Rle_trans with s1; [exact M3 |].
  unfold s1 at 1; rewrite <- (Rounded.rnd_rnd Rd L); fold s1.
  apply (Rounded.rnd_le Rd L); lra.
Qed.

(** The penalty and the final clamp: the result is at least the difference
    of the literals [0.35] and [0.3] as the arithmetic computes it. *)
Lemma penalised_clamp_bounds (b b0 : R) (penalty : bool) :
  Rounded.lit Rd 0.35 = Finite b0 ->
  b0 <= b <= 1 + 1e-15 ->
  exists c f : R,
    Generic.clamp (Rounded.ops Rd)
      (if penalty
       then Generic.sub (Rounded.ops Rd) (Finite b)
              (Generic.lit (Rounded.ops Rd) 0.3)
       else Finite b)
      (Generic.lit (Rounded.ops Rd) 0) (Generic.lit (Rounded.ops Rd) 1)
    = Finite c
    /\ Rounded.sub Rd (Rounded.lit Rd 0.35) (Rounded.lit Rd 0.3) = Finite f
    /\ f <= c <= 1
    /\ 0.05 - 1e-15 <= f <= 0.05 + 1e-15.
Proof.
  intros Hb0 Hb.
  cbn [Generic.lit Generic.sub Rounded.ops].
  rewrite (lit_0 Rd L), (lit_1 Rd L), Hb0.
  destruct lit_0_35 as (c035 & H35 & Hc035 & _).
  rewrite Hb0 in H35; injection H35 as <-.
  destruct lit_0_3 as (c03 & -> & Hc03).
  simpl.
  rewrite (fl_small Rd L (b0 - c03)) by (rewrite Rabs_pos_eq; lra).
  pose proof (rnd_near Rd L (b0 - c03)) as Nf.
  rewrite Rabs_pos_eq in Nf by lra; specialize (Nf ltac:(lra)).
  set (f := Rounded.rnd Rd (b0 - c03)) in *.
  destruct penalty.
  - rewrite (fl_small Rd L (b - c03)) by (rewrite Rabs_pos_eq; lra).
    assert (M : f <= Rounded.rnd Rd (b - c03))
      by (apply (Rounded.rnd_le Rd L); lra).
    simpl.
    exists (Rmin 1 (Rmax 0 (Rounded.rnd Rd (b - c03)))), f.
    split; [reflexivity | split; [reflexivity |]].
    split; [| lra].
    unfold Rmin, Rmax; destruct (Rle_dec 0 _); destruct (Rle_dec 1 _); lra.
  - simpl.
    exists (Rmin 1 (Rmax 0 b)), f.
    split; [reflexivity | split; [reflexivity |]].
    split; [| lra].
    unfold Rmin, Rmax; destruct (Rle_dec 0 _); destruct (Rle_dec 1 _); lra.
Qed.

End RoundedOperations.

Section RoundedMeasurement.

Variable Rd : Rounded.Rounding.
Hypothesis L : Rounded.Laws Rd.

Lemma Rounded_finitePoint_inv (p : Generic.Point number) :
  Rounded.finitePoint p ->
  exists a b : R, p = Generic.mkPoint (Finite a) (Finite b).
Proof.
  intros [Hx Hy]; destruct p as [px py]; simpl in *.
  apply isFinite_inv in Hx, Hy.
  destruct Hx as [a ->], Hy as [b ->]; eauto.
Qed.

Lemma Rounded_distance_same (p : Generic.Point number) :
  Rounded.finitePoint p ->
  Generic.distance (Rounded.ops Rd) p p = Finite 0.
Proof.
  intros Hp; destruct (Rounded_finitePoint_inv p Hp) as (a & b & ->).
  unfold Generic.distance; simpl.
  rewrite !Rminus_diag, (fl_0 Rd L); simpl.
  rewrite (Rounded.hyp_0 Rd L).
  destruct (Rle_dec 0 (Rounded.Omega Rd)) as [_ | Hn]; [reflexivity |].
  exfalso; apply Hn.
  pose proof (Rounded.Omega_large Rd L) as HO; rewrite pow2_53 in HO; lra.
Qed.

(** The confidence before the penalty, for finite markers whose card-corner
    height difference is finite. *)
Lemma confidenceBeforePenalty_rounded (markers : Generic.MarkerMap number) :
  Rounded.finiteMarkers markers ->
  Number.isFinite
    (Rounded.sub Rd (Generic.y (markers leftCard))
       (Generic.y (markers rightCard))) = true ->
  exists b b0 : R,
    Rounded.confidenceBeforePenalty Rd markers = Finite b
    /\ Rounded.lit Rd 0.35 = Finite b0
    /\ b0 <= b <= 1 + 1e-15.
Proof.
  intros Hfin Hdy.
  apply isFinite_inv in Hdy; destruct Hdy as [dy Hdy].
  pose proof (distance_nonneg Rd L _ _ (Hfin leftCard) (Hfin rightCard)) as Hw.
  unfold Rounded.confidenceBeforePenalty, Generic.confidenceBeforePenalty.
  cbv zeta; unfold Generic.MIN_CARD_PIXEL_WIDTH.
  set (w := Generic.distance (Rounded.ops Rd) (markers leftCard)
              (markers rightCard)) in *.
  change (Generic.sub (Rounded.ops Rd) (Generic.y (markers leftCard))
            (Generic.y (markers rightCard)))
    with (Rounded.sub Rd (Generic.y (markers leftCard))
            (Generic.y (markers rightCard))).
  rewrite Hdy.
  destruct (scaleConfidence_unit Rd L w Hw) as (sc & -> & Hsc).
  destruct (tiltConfidence_unit Rd L w dy Hw) as (tc & -> & Htc).
  apply (weighted_sum_bounds Rd L); assumption.
Qed.

Lemma calculatePd_confidence_unfold (markers : Generic.MarkerMap number) :
  Generic.confidence (Rounded.calculatePd Rd markers)
  = Generic.clamp (Rounded.ops Rd)
      (if Number.lt (Generic.pdMm (Rounded.calculatePd Rd markers))
            (Rounded.lit Rd 45)
          || Number.lt (Rounded.lit Rd 80)
               (Generic.pdMm (Rounded.calculatePd Rd markers))
       then Generic.sub (Rounded.ops Rd)
              (Rounded.confidenceBeforePenalty Rd markers)
              (Generic.lit (Rounded.ops Rd) 0.3)
       else Rounded.confidenceBeforePenalty Rd markers)
      (Generic.lit (Rounded.ops Rd) 0) (Generic.lit (Rounded.ops Rd) 1).
Proof. reflexivity. Qed.

Lemma calculatePd_issues_unfold (markers : Generic.MarkerMap number) :
  Generic.issues (Rounded.calculatePd Rd markers)
  = let result := Rounded.calculatePd Rd markers in
    let issues :=
      if Number.lt (Generic.cardPixelWidth result) (Rounded.lit Rd 90)
      then Generic.push [] Generic.CardTooClose else [] in
    let issues :=
      if Number.lt (Generic.pdMm result) (Rounded.lit Rd 45)
         || Number.lt (Rounded.lit Rd 80) (Generic.pdMm result)
      then Generic.push issues (Generic.PdOutOfRange (Generic.pdMm result))
      else issues in
    if Number.lt (Rounded.lit Rd 0.2)
         (Rounded.div Rd
            (Math.abs
               (Rounded.sub Rd (Generic.y (markers leftCard))
                  (Generic.y (markers rightCard))))
            (Math.max (Generic.cardPixelWidth result) (Rounded.lit Rd 1)))
    then Generic.push issues Generic.CardTilted else issues.
Proof. reflexivity. Qed.

Lemma calculatePd_valid_unfold (markers : Generic.MarkerMap number) :
  Generic.valid (Rounded.calculatePd Rd markers)
  = (List.length (Generic.issues (Rounded.calculatePd Rd markers)) =? 0)%nat.
Proof. reflexivity. Qed.

Lemma calculatePd_confidence_rounded (markers : Generic.MarkerMap number) :
  Rounded.finiteMarkers markers ->
  Number.isFinite
    (Rounded.sub Rd (Generic.y (markers leftCard))
       (Generic.y (markers rightCard))) = true ->
  exists c f : R,
    Generic.confidence (Rounded.calculatePd Rd markers) = Finite c
    /\ Rounded.sub Rd (Rounded.lit Rd 0.35) (Rounded.lit Rd 0.3) = Finite f
    /\ f <= c <= 1
    /\ 0.05 - 1e-15 <= f <= 0.05 + 1e-15.
Proof.
  intros Hfin Hdy.
  destruct (confidenceBeforePenalty_rounded markers Hfin Hdy)
    as (b & b0 & Hb & Hb0 & Hbb).
  rewrite calculatePd_confidence_unfold, Hb.
  apply (penalised_clamp_bounds Rd L b b0); assumption.
Qed.

End RoundedMeasurement.

Lemma exact_Laws : Rounded.Laws Rounded.exact.
Proof.
  assert (H : 2 ^ 53 <= 2 ^ 1024) by (apply Rle_pow; [lra | lia]).
  constructor;
    cbn [Rounded.rnd Rounded.Omega Rounded.hyp Rounded.exact]; intros.
  - assumption.
  - reflexivity.
  - reflexivity.
  - rewrite Rminus_diag, Rabs_R0, pow2_53; lra.
  - exact H.
  - apply sqrt_pos.
  - rewrite Rmult_0_l, Rplus_0_l; apply sqrt_0.
Qed.

(** ** Degenerate scale reference *)

(** C1 as the spec states it fails where the pupil distance overflows: with
    the pupils at (2^1023, 0) and (-2^1023, 0) and both card corners at the
    origin, all coordinates finite, binary64 arithmetic gives
    [pupilPixelDistance = Infinity] and [pdMm = Infinity * 0 = NaN]; both
    comparisons of the range check are false on [NaN], so the only issue is
    the card-too-close one and there is no out-of-range issue. *)
Lemma calculatePd_coincident_card_counterexample :
  Binary64.farPupils leftCard = Binary64.farPupils rightCard
  /\ (forall key,
         PrimFloat.is_finite (Generic.x (Binary64.farPupils key)) = true
         /\ PrimFloat.is_finite (Generic.y (Binary64.farPupils key)) = true)
  /\ Generic.cardPixelWidth (Binary64.calculatePd Binary64.farPupils)
     = PrimFloat.zero
  /\ Generic.pupilPixelDistance (Binary64.calculatePd Binary64.farPupils)
     = PrimFloat.infinity
  /\ PrimFloat.is_nan
       (Generic.pdMm (Binary64.calculatePd Binary64.farPupils)) = true
  /\ Generic.issues (Binary64.calculatePd Binary64.farPupils)
     = [Generic.CardTooClose].
Proof.
  split; [reflexivity |].
  split; [intros []; split; vm_compute; reflexivity |].
  repeat split; vm_compute; reflexivity.
Qed.

(** C1, amended.  Under any rounding with the laws of binary64, for every
    marker map with finite coordinates whose [leftCard] and [rightCard]
    coincide and whose pupil distance is finite (it does not overflow),
    [calculatePd] returns [cardPixelWidth = 0], [mmPerPixel = 0] and
    [pdMm = 0], its issues contain the out-of-range issue for the value 0,
    the result is not valid, and every numeric field of the result is a
    finite number (neither [NaN] nor an infinity). *)
Theorem calculatePd_coincident_card_rounded
  (Rd : Rounded.Rounding) (markers : Generic.MarkerMap number) :
  Rounded.Laws Rd ->
  Rounded.finiteMarkers markers ->
  markers leftCard = markers rightCard ->
  Number.isFinite
    (Generic.pupilPixelDistance (Rounded.calculatePd Rd markers)) = true ->
  let result := Rounded.calculatePd Rd markers in
  Generic.cardPixelWidth result = Finite 0
  /\ Generic.mmPerPixel result = Finite 0
  /\ Generic.pdMm result = Finite 0
  /\ In (Generic.PdOutOfRange (Finite 0)) (Generic.issues result)
  /\ Generic.valid result = false
  /\ Number.isFinite (Generic.pupilPixelDistance result) = true
  /\ Number.isFinite (Generic.cardPixelWidth result) = true
  /\ Number.isFinite (Generic.mmPerPixel result) = true
  /\ Number.isFinite (Generic.pdMm result) = true
  /\ Number.isFinite (Generic.pdMmRounded result) = true
  /\ Number.isFinite (Generic.confidence result) = true.
Proof.
  intros L Hfin Hsame Hpp result; subst result.
  assert (Hconf : Number.isFinite
                    (Generic.confidence (Rounded.calculatePd Rd markers))
                  = true).
  { destruct (calculatePd_confidence_rounded Rd L markers Hfin)
      as (c & f & -> & _); [| reflexivity].
    rewrite <- Hsame.
    destruct (Rounded_finitePoint_inv _ (Hfin leftCard)) as (a & b & ->).
    simpl; rewrite Rminus_diag, (fl_0 Rd L); reflexivity. }
  assert (Hw : Generic.distance (Rounded.ops Rd) (markers leftCard)
                 (markers rightCard) = Finite 0).
  { rewrite <- Hsame; apply (Rounded_distance_same Rd L), Hfin. }
  pose proof Hpp as Hp.
  apply isFinite_inv in Hp; destruct Hp as [p Hp].
  change (Generic.distance (Rounded.ops Rd) (markers leftPupil)
            (markers rightPupil) = Finite p) in Hp.
  assert (H00 : Number.Rltb 0 0 = false) by (apply Rltb_false; lra).
  assert (H45 : Number.Rltb 0 45 = true) by (apply Rltb_true; lra).
  assert (Hmm : Generic.mmPerPixel (Rounded.calculatePd Rd markers)
                = Finite 0).
  { unfold Rounded.calculatePd, Generic.calculatePd; cbv zeta.
    cbn [Generic.mmPerPixel]; rewrite Hw.
    cbn [Generic.lit Generic.lt Rounded.ops]; rewrite (lit_0 Rd L).
    simpl; rewrite H00; reflexivity. }
  assert (Hpd : Generic.pdMm (Rounded.calculatePd Rd markers) = Finite 0).
  { change (Generic.pdMm (Rounded.calculatePd Rd markers))
      with (Rounded.mul Rd
              (Generic.pupilPixelDistance (Rounded.calculatePd Rd markers))
              (Generic.mmPerPixel (Rounded.calculatePd Rd markers))).
    rewrite Hmm.
    change (Generic.pupilPixelDistance (Rounded.calculatePd Rd markers))
      with (Generic.distance (Rounded.ops Rd) (markers leftPupil)
              (markers rightPupil)).
    rewrite Hp; simpl; rewrite Rmult_0_r; apply (fl_0 Rd L). }
  assert (Hround : Generic.pdMmRounded (Rounded.calculatePd Rd markers)
                   = Finite 0).
  { change (Generic.pdMmRounded (Rounded.calculatePd Rd markers))
      with (Rounded.div Rd
              (Math.round
                 (Rounded.mul Rd
                    (Generic.pdMm (Rounded.calculatePd Rd markers))
                    (Rounded.lit Rd 2)))
              (Rounded.lit Rd 2)).
    rewrite Hpd, (lit_2 Rd L); simpl.
    rewrite Rmult_0_l, (fl_0 Rd L); simpl.
    rewrite (Zfloor_IZR_half 0).
    destruct (Req_dec_T 2 0) as [E | _]; [lra |].
    replace (0 / 2) with 0 by lra; apply (fl_0 Rd L). }
  assert (Hout : Number.lt (Generic.pdMm (Rounded.calculatePd Rd markers))
                   (Rounded.lit Rd 45) = true).
  { rewrite Hpd, (lit_45 Rd L); exact H45. }
  assert (Hissues :
            In (Generic.PdOutOfRange (Finite 0))
               (Generic.issues (Rounded.calculatePd Rd markers))
            /\ Generic.valid (Rounded.calculatePd Rd markers) = false).
  { rewrite calculatePd_valid_unfold, calculatePd_issues_unfold; cbv zeta.
    rewrite Hout, Hpd; cbn [orb]; unfold Generic.push.
    destruct (Number.lt _ (Rounded.lit Rd 90));
      destruct (Number.lt (Rounded.lit Rd 0.2) _); simpl; tauto. }
  destruct Hissues as [Hin Hvalid].
  split; [exact Hw |].
  split; [exact Hmm |].
  split; [exact Hpd |].
  split; [exact Hin |].
  split; [exact Hvalid |].
  rewrite Hmm, Hpd, Hround, Hconf.
  change (Generic.cardPixelWidth (Rounded.calculatePd Rd markers))
    with (Generic.distance (Rounded.ops Rd) (markers leftCard)
            (markers rightCard)).
  rewrite Hw.
  repeat split; assumption.
Qed.

Lemma fl_exact (a : R) :
  Rabs a <= 2 ^ 53 -> Rounded.fl Rounded.exact a = Finite a.
Proof.
  intros H; apply (fl_Finite Rounded.exact).
  cbn [Rounded.rnd Rounded.Omega Rounded.exact].
  pose proof (Rounded.Omega_large _ exact_Laws) as HO.
  cbn [Rounded.Omega Rounded.exact] in HO; lra.
Qed.

Lemma coincidentCard_finiteMarkers :
  Rounded.finiteMarkers Rounded.coincidentCard.
Proof. intros []; split; reflexivity. Qed.

Lemma smallTiltedCard_finiteMarkers :
  Rounded.finiteMarkers Rounded.smallTiltedCard.
Proof. intros []; split; reflexivity. Qed.

Lemma coincidentCard_pupilPixelDistance :
  Generic.pupilPixelDistance
    (Rounded.calculatePd Rounded.exact Rounded.coincidentCard)
  = Finite 200.
Proof.
  change (Generic.pupilPixelDistance
            (Rounded.calculatePd Rounded.exact Rounded.coincidentCard))
    with (Rounded.Math_hypot Rounded.exact
            (Rounded.fl Rounded.exact (400 - 600))
            (Rounded.fl Rounded.exact (480 - 480))).
  rewrite !fl_exact by (rewrite pow2_53; apply Rabs_le; lra).
  cbn [Rounded.Math_hypot Rounded.hyp Rounded.Omega Rounded.exact].
  replace ((400 - 600) * (400 - 600) + (480 - 480) * (480 - 480))
    with (Rsqr 200) by (unfold Rsqr; lra).
  rewrite sqrt_Rsqr by lra.
  destruct (Rle_dec 200 (2 ^ 1024)) as [_ | Hn]; [reflexivity |].
  exfalso; apply Hn.
  pose proof (Rounded.Omega_large _ exact_Laws) as HO.
  cbn [Rounded.Omega Rounded.exact] in HO; rewrite pow2_53 in HO; lra.
Qed.

Lemma calculatePd_coincident_card_rounded_witness :
  Generic.pdMm (Rounded.calculatePd Rounded.exact Rounded.coincidentCard)
  = Finite 0
  /\ In (Generic.PdOutOfRange (Finite 0))
        (Generic.issues
           (Rounded.calculatePd Rounded.exact Rounded.coincidentCard)).
Proof.
  assert (Hpp : Number.isFinite
                  (Generic.pupilPixelDistance
                     (Rounded.calculatePd Rounded.exact
                        Rounded.coincidentCard)) = true)
    by (rewrite coincidentCard_pupilPixelDistance; reflexivity).
  pose proof (calculatePd_coincident_card_rounded Rounded.exact
                Rounded.coincidentCard exact_Laws
                coincidentCard_finiteMarkers eq_refl Hpp) as H.
  cbv zeta in H; tauto.
Defined.

(** ** Confidence bounds *)

(** C9 as the spec states it fails by one rounding: with the pupils 100 px
    apart and a card 50 px wide from (0,0) to (30,40), a width below the
    minimum and a tilt above the limit, the value before the penalty is the
    literal [0.35], and binary64 computes [0.35 - 0.3] as
    0.04999999999999999, which is below the literal [0.05]. *)
Lemma calculatePd_confidence_bounds_counterexample :
  (forall key,
      PrimFloat.is_finite (Generic.x (Binary64.smallTiltedCard key)) = true
      /\ PrimFloat.is_finite (Generic.y (Binary64.smallTiltedCard key)) = true)
  /\ Generic.confidenceBeforePenalty Binary64.ops Binary64.smallTiltedCard
     = Binary64.lit 0.35
  /\ Generic.confidence (Binary64.calculatePd Binary64.smallTiltedCard)
     = PrimFloat.sub (Binary64.lit 0.35) (Binary64.lit 0.3)
  /\ PrimFloat.ltb
       (Generic.confidence (Binary64.calculatePd Binary64.smallTiltedCard))
       (Binary64.lit 0.05) = true.
Proof.
  split; [intros []; split; vm_compute; reflexivity |].
  repeat split; vm_compute; reflexivity.
Qed.

(** C9, amended.  Under any rounding with the laws of binary64, for every
    marker map with finite coordinates whose card-corner height difference
    is finite (it does not overflow), the confidence of [calculatePd] is the
    clamped, possibly penalised value of [confidenceBeforePenalty]; that
    value is a real between the literal [0.35] as it is rounded and
    1 + 1e-15; the confidence is a real between the difference of the
    literals [0.35] and [0.3] as the arithmetic computes it, which is within
    1e-15 of 0.05, and 1; in particular it is never 0. *)
Theorem calculatePd_confidence_bounds_rounded
  (Rd : Rounded.Rounding) (markers : Generic.MarkerMap number) :
  Rounded.Laws Rd ->
  Rounded.finiteMarkers markers ->
  Number.isFinite
    (Rounded.sub Rd (Generic.y (markers leftCard))
       (Generic.y (markers rightCard))) = true ->
  let result := Rounded.calculatePd Rd markers in
  Generic.confidence result
  = Generic.clamp (Rounded.ops Rd)
      (if Number.lt (Generic.pdMm result) (Rounded.lit Rd 45)
          || Number.lt (Rounded.lit Rd 80) (Generic.pdMm result)
       then Rounded.sub Rd (Rounded.confidenceBeforePenalty Rd markers)
              (Rounded.lit Rd 0.3)
       else Rounded.confidenceBeforePenalty Rd markers)
      (Rounded.lit Rd 0) (Rounded.lit Rd 1)
  /\ (exists b b0 : R,
         Rounded.confidenceBeforePenalty Rd markers = Finite b
         /\ Rounded.lit Rd 0.35 = Finite b0
         /\ b0 <= b <= 1 + 1e-15
         /\ 0.35 - 1e-15 <= b0 <= 0.35 + 1e-15)
  /\ (exists c f : R,
         Generic.confidence result = Finite c
         /\ Rounded.sub Rd (Rounded.lit Rd 0.35) (Rounded.lit Rd 0.3)
            = Finite f
         /\ f <= c <= 1
         /\ 0.05 - 1e-15 <= f <= 0.05 + 1e-15)
  /\ Generic.confidence result <> Finite 0.
Proof.
  intros L Hfin Hdy result; subst result.
  split; [reflexivity |].
  destruct (confidenceBeforePenalty_rounded Rd L markers Hfin Hdy)
    as (b & b0 & Hb & Hb0 & Hbb).
  destruct (calculatePd_confidence_rounded Rd L markers Hfin Hdy)
    as (c & f & Hc & Hf & Hcf & Hff).
  split; [| split].
  - exists b, b0; repeat split; try assumption; try lra.
    all: destruct (lit_0_35 Rd L) as (c035 & H35 & Hc035 & _);
      rewrite Hb0 in H35; injection H35 as <-; lra.
  - exists c, f; repeat split; try assumption; lra.
  - rewrite Hc; intros Heq; injection Heq as Heq; lra.
Qed.

Lemma calculatePd_confidence_bounds_rounded_witness :
  exists c f : R,
    Generic.confidence
      (Rounded.calculatePd Rounded.exact Rounded.smallTiltedCard) = Finite c
    /\ Rounded.sub Rounded.exact (Rounded.lit Rounded.exact 0.35)
         (Rounded.lit Rounded.exact 0.3) = Finite f
    /\ f <= c <= 1
    /\ 0.05 - 1e-15 <= f <= 0.05 + 1e-15.
Proof.
  assert (Hdy : Number.isFinite
                  (Rounded.sub Rounded.exact
                     (Generic.y (Rounded.smallTiltedCard leftCard))
                     (Generic.y (Rounded.smallTiltedCard rightCard))) = true).
  { change (Number.isFinite (Rounded.fl Rounded.exact (0 - 40)) = true).
    rewrite fl_exact by (rewrite pow2_53; apply Rabs_le; lra).
    reflexivity. }
  exact (proj1 (proj2 (proj2
    (calculatePd_confidence_bounds_rounded Rounded.exact
       Rounded.smallTiltedCard exact_Laws smallTiltedCard_finiteMarkers
       Hdy)))).
Defined.
